(** * cloud-region-to-grid-carbon-mapping: a shallow embedding of [main.go]

    The program reads a CSV file of cloud regions, fills in missing
    coordinates through the OpenStreetMap geocoder, looks up the
    Electricity Maps zone and the WattTime region of every row and prints
    the enriched table.

    Go strings are byte sequences and are modelled by [string]; [float64]
    is the primitive binary64 type [float]; a Go [error] value is the
    inductive [error]; a run-time panic is the outcome [Panic].  The
    outside world (HTTP servers, standard output) is an abstract state
    machine, and every function that talks to it returns, next to its
    result, the new world and the list of events it performed. *)

From Stdlib Require Import String Ascii List ZArith Lia Bool.
From Stdlib Require Import Floats SpecFloat DecimalString.
Import ListNotations.
Open Scope string_scope.

(** ** The [strings] package *)

Module strings.

(** [strings.HasPrefix]. *)
Definition HasPrefix (s p : string) : bool := String.prefix p s.

(** [strings.HasSuffix]: [len(s) >= len(suffix)] and the last
    [len(suffix)] bytes of [s] are [suffix]. *)
Definition HasSuffix (s suffix : string) : bool :=
  (String.length suffix <=? String.length s)%nat &&
  String.eqb
    (substring (String.length s - String.length suffix)
               (String.length suffix) s)
    suffix.

(** The scanner behind [Split]: [cur] is the piece being accumulated and
    [skip] counts the bytes of a separator occurrence still to be jumped
    over.  Occurrences are found left to right and do not overlap. *)
Fixpoint genSplit (sep s : string) (skip : nat) (cur : string)
  : list string :=
  match s with
  | EmptyString => [cur]
  | String c s' =>
      match skip with
      | S k => genSplit sep s' k cur
      | O =>
          if String.prefix sep s
          then cur :: genSplit sep s' (String.length sep - 1) ""
          else genSplit sep s' 0 (cur ++ String c "")
      end
  end.

(** [strings.Split(s, sep)] for a non-empty separator: the pieces of [s]
    between the occurrences of [sep]; always at least one piece. *)
Definition Split (s sep : string) : list string := genSplit sep s 0 "".

(** The scanner behind [Replace]: [n] is the number of replacements still
    allowed (a negative [n] means no limit). *)
Fixpoint genReplace (old new s : string) (skip : nat) (n : Z) : string :=
  match s with
  | EmptyString => ""
  | String c s' =>
      match skip with
      | S k => genReplace old new s' k n
      | O =>
          if (negb (n =? 0)%Z) && String.prefix old s
          then new ++ genReplace old new s' (String.length old - 1) (n - 1)
          else String c (genReplace old new s' 0 n)
      end
  end.

(** [strings.Replace(s, old, new, n)] for a non-empty [old]: the first
    [n] non-overlapping occurrences of [old] replaced by [new]. *)
Definition Replace (s old new : string) (n : Z) : string :=
  genReplace old new s 0 n.

(** [strings.Contains(s, substr)]. *)
Fixpoint Contains (s substr : string) : bool :=
  String.prefix substr s ||
  match s with
  | EmptyString => false
  | String _ s' => Contains s' substr
  end.

End strings.

(** ** The [fmt] verbs the program uses *)

Module fmt.

(** Decimal digits of a natural number. *)
Definition digits (n : N) : string := NilEmpty.string_of_uint (N.to_uint n).

(** [%d] of an [int]. *)
Definition d (z : Z) : string :=
  if (z <? 0)%Z then "-" ++ digits (Z.to_N (- z)) else digits (Z.to_N z).

Fixpoint zeros (n : nat) : string :=
  match n with
  | O => ""
  | S k => String "0" (zeros k)
  end.

(** The six digits after the decimal point. *)
Definition frac6 (n : N) : string :=
  let s := digits n in zeros (6 - String.length s) ++ s.

(** [num / den] rounded to the nearest integer, ties to even. *)
Definition round_half_even (num den : Z) : Z :=
  let q := (num / den)%Z in
  let r := (num mod den)%Z in
  match (2 * r ?= den)%Z with
  | Lt => q
  | Gt => (q + 1)%Z
  | Eq => if Z.even q then q else (q + 1)%Z
  end.

(** [m * 2^e * 10^6] rounded to an integer. *)
Definition scaled6 (m : positive) (e : Z) : Z :=
  if (0 <=? e)%Z
  then (Zpos m * 10 ^ 6 * 2 ^ e)%Z
  else round_half_even (Zpos m * 10 ^ 6) (2 ^ (- e)).

Definition sign (s : bool) : string := if s then "-" else "".

(** [%f] of a [float64]: the exact value rounded to six decimals, with
    the spellings [fmt] gives to the special values. *)
Definition f (x : float) : string :=
  match Prim2SF x with
  | S754_nan => "NaN"
  | S754_infinity false => "+Inf"
  | S754_infinity true => "-Inf"
  | S754_zero s => sign s ++ "0.000000"
  | S754_finite s m e =>
      let n := Z.to_N (scaled6 m e) in
      sign s ++ digits (n / 1000000) ++ "." ++ frac6 (n mod 1000000)
  end.

End fmt.

(** ** Outcomes *)

(** Go [error] values.  [ErrFieldCount] and [EOF] are the package-level
    sentinels [csv.ErrFieldCount] and [io.EOF]; [ParseError] is the
    [*csv.ParseError] that [csv.Reader] allocates around its causes;
    [ErrorString] is a value made by [fmt.Errorf] or by a library. *)
Inductive error : Type :=
| ErrorString (msg : string)
| EOF
| ErrFieldCount
| ParseError (StartLine Line Column : Z) (Err : error).

(** The result of running a piece of Go code: it returns a value, returns
    a non-nil error, or panics. *)
Inductive Res (A : Type) : Type :=
| Ok (a : A)
| Err (e : error)
| Panic (msg : string).
Arguments Ok {A} a.
Arguments Err {A} e.
Arguments Panic {A} msg.

(** Indexing a slice, [xs[i]]: out of range is a run-time panic. *)
Definition index {A} (xs : list A) (i : nat) : Res A :=
  match nth_error xs i with
  | Some x => Ok x
  | None => Panic "index out of range"
  end.

(** ** [parseAWSLocation] *)

Definition parseAWSLocation (input : string) : Res string :=
  let split := strings.Split input "(" in
  match
    (if (0 <? length split)%nat then index split 1 else Ok "")
  with
  | Ok location =>
      Ok (if strings.HasSuffix location ")"
          then strings.Replace location ")" "" 1
          else location)
  | Err e => Err e
  | Panic m => Panic m
  end.

(** ** Library results, requests and events *)

(** The [(value, err)] pair returned by a library call whose error the
    program inspects itself. *)
Inductive IoResult (A : Type) : Type :=
| Done (a : A)
| Failed (e : error).
Arguments Done {A} a.
Arguments Failed {A} e.

(** An [*http.Request] as the program builds it: always a GET; [Query] is
    the [url.Values] appended to the base URL, in the order of the [Add]
    calls; [Header] the headers set by hand; [BasicAuth] the pair given to
    [SetBasicAuth].  [http.NewRequestWithContext] does not fail on these
    requests (a valid method, a non-nil context, a URL made of a constant
    and an encoded query), so its error branch is left out. *)
Record Request : Type := mkRequest {
  URL : string;
  Query : list (string * string);
  Header : list (string * string);
  BasicAuth : option (string * string)
}.

(** What [client.Do] and the later [io.ReadAll(resp.Body)] give: a
    transport error, or a response with its status code and the outcome of
    reading its body. *)
Inductive HttpOutcome : Type :=
| TransportError (e : error)
| Response (StatusCode : Z) (Body : IoResult string).

(** What the program does to the outside world, in order. *)
Inductive Event : Type :=
| EvOpen (fileName : string)
| EvHTTP (req : Request) (out : HttpOutcome)
| EvSleep (seconds : Z)
| EvWrite (record : list string)
| EvFlush.

(** ** Constants and types of [main.go] *)

Definition awsCloudProvider := "Amazon Web Services".
Definition electricityMapsAPIKeyEnvVar := "ELECTRICITY_MAPS_API_KEY".
Definition electricityMapsBaseURL :=
  "https://api-access.electricitymaps.com/free-tier/carbon-intensity/latest".
Definition openStreetMapBaseURL := "https://nominatim.openstreetmap.org/search".
Definition wattTimeUserEnvVar := "WATT_TIME_USER".
Definition wattTimePasswordEnvVar := "WATT_TIME_PASSWORD".
Definition wattTimeLoginURL := "https://api.watttime.org/login".
Definition wattTimeRegionURL := "https://api.watttime.org/v3/region-from-loc".

Definition StatusOK : Z := 200.
Definition StatusNotFound : Z := 404.

Definition header : list string :=
  [ "cloud_provider"; "cloud_region"; "location"; "location_override";
    "location_source"; "location_type"; "latitude"; "longitude";
    "electricity_maps_zone"; "watt_time_region" ].

Record Region : Type := mkRegion {
  CloudProvider : string;
  CloudRegion : string;
  Location : string;
  LocationOverride : string;
  LocationSource : string;
  LocationType : string;
  Latitude : float;
  Longitude : float;
  ElectricityMapsZone : string;
  WattTimeRegion : string
}.

Record ElectricityMapsResponse : Type := { Zone : string }.
Record OpenStreetMapPlace : Type := { Lat : string; Lon : string }.
Record WattTimeLoginResp : Type := { Token : string }.
Record WattTimeRegionResp : Type := { Region_ : string }.

(** ** The [encoding/csv] reader, at the level of records

    The input file is taken after tokenisation: a sequence of lines, each
    either the fields of one record, with the number of its line, or a
    line on which the reader returns an error of its own (a [*ParseError]
    around a quoting error, or the error of the underlying file). *)
Module csv.

Inductive Line : Type :=
| Fields (line : Z) (fields : list string)
| Corrupt (e : error).

(** [Reader.readRecord], the field-count check at its end: with
    [FieldsPerRecord = 0] the first record fixes the expected count; a
    later record of another length is returned together with a freshly
    allocated [*ParseError] whose [Err] is [ErrFieldCount]. *)
Definition readRecord (FieldsPerRecord : Z) (l : Line)
  : list string * option error * Z :=
  match l with
  | Corrupt e => ([], Some e, FieldsPerRecord)
  | Fields line dst =>
      if (0 <? FieldsPerRecord)%Z then
        if negb (Z.of_nat (length dst) =? FieldsPerRecord)%Z
        then (dst, Some (ParseError line line 1 ErrFieldCount),
              FieldsPerRecord)
        else (dst, None, FieldsPerRecord)
      else if (FieldsPerRecord =? 0)%Z
      then (dst, None, Z.of_nat (length dst))
      else (dst, None, FieldsPerRecord)
  end.

Record Reader : Type := { FieldsPerRecord : Z; input : list Line }.

Definition NewReader (file : list Line) : Reader :=
  {| FieldsPerRecord := 0; input := file |}.

(** [Reader.Read]: the next record, or [io.EOF] at the end of input. *)
Definition Read (r : Reader) : list string * option error * Reader :=
  match input r with
  | [] => ([], Some EOF, r)
  | l :: rest =>
      let '(record, err, n) := readRecord (FieldsPerRecord r) l in
      (record, err, {| FieldsPerRecord := n; input := rest |})
  end.

End csv.

(** Go's [==] on two [error] interface values: equal dynamic types and
    equal pointers.  A sentinel is identical to itself only; the
    [*ParseError] and [*errorString] values allocated by a call are fresh
    pointers, identical to no sentinel. *)
Definition error_identical (a b : error) : bool :=
  match a, b with
  | EOF, EOF => true
  | ErrFieldCount, ErrFieldCount => true
  | _, _ => false
  end.

(** The process environment: [os.Getenv], [os.Args] and the files
    [os.Open] can reach. *)
Record Process : Type := {
  Getenv : string -> string;
  Args : list string;
  Open : string -> IoResult (list csv.Line)
}.

(** The outside world and the library functions the program calls: the
    HTTP client and standard output act on a world state; [strconv] and
    [encoding/json] are pure. *)
Record Host : Type := {
  World : Type;
  clientDo : Request -> World -> HttpOutcome * World;
  stdoutWrite : list string -> World -> option error * World;
  stdoutFlush : World -> option error * World;
  ParseFloat : string -> IoResult float;
  unmarshalZone : string -> IoResult ElectricityMapsResponse;
  unmarshalPlaces : string -> IoResult (list OpenStreetMapPlace);
  unmarshalLogin : string -> IoResult WattTimeLoginResp;
  unmarshalRegion : string -> IoResult WattTimeRegionResp
}.

(** ** The program *)

Section Program.

Variable host : Host.
Variable proc : Process.

(** A computation: from a world to a result, the new world and the
    events performed. *)
Definition M (A : Type) : Type :=
  World host -> Res A * World host * list Event.

Definition ret {A} (a : A) : M A := fun w => (Ok a, w, []).
Definition fail {A} (e : error) : M A := fun w => (Err e, w, []).
Definition lift {A} (r : Res A) : M A := fun w => (r, w, []).

(** Sequencing; a returned error or a panic ends the computation, as
    [if err != nil { return ..., err }] does. *)
Definition bind {A B} (m : M A) (k : A -> M B) : M B :=
  fun w =>
    match m w with
    | (Ok a, w1, t1) => let '(r, w2, t2) := k a w1 in (r, w2, (t1 ++ t2)%list)
    | (Err e, w1, t1) => (Err e, w1, t1)
    | (Panic msg, w1, t1) => (Panic msg, w1, t1)
    end.

Notation "x <- m ;; k" := (bind m (fun x => k))
  (at level 61, m at next level, right associativity).
Notation "m ;;; k" := (bind m (fun _ => k))
  (at level 61, right associativity).

(** [client.Do(req)] followed by reading the body. *)
Definition Do (req : Request) : M HttpOutcome :=
  fun w =>
    let '(out, w') := clientDo host req w in (Ok out, w', [EvHTTP req out]).

Definition Sleep (seconds : Z) : M unit :=
  fun w => (Ok tt, w, [EvSleep seconds]).

Definition Write (record : list string) : M (option error) :=
  fun w =>
    let '(e, w') := stdoutWrite host record w in (Ok e, w', [EvWrite record]).

Definition Flush : M (option error) :=
  fun w => let '(e, w') := stdoutFlush host w in (Ok e, w', [EvFlush]).

(** [fmt.Errorf("expected %d response got %d", http.StatusOK, code)]. *)
Definition unexpectedStatus (code : Z) : error :=
  ErrorString ("expected " ++ fmt.d StatusOK ++ " response got " ++ fmt.d code).

(** [fmt.Errorf("%s env var must be set", name)]. *)
Definition mustBeSet (name : string) : error :=
  ErrorString (name ++ " env var must be set").

Definition zoneRequest (apiKey : string) (latitude longitude : float)
  : Request :=
  {| URL := electricityMapsBaseURL;
     Query := [("lat", fmt.f latitude); ("lon", fmt.f longitude)];
     Header := [("auth-token", apiKey)];
     BasicAuth := None |}.

Definition getElectricityMapsZone (apiKey : string)
    (latitude longitude : float) : M string :=
  out <- Do (zoneRequest apiKey latitude longitude) ;;
  match out with
  | TransportError e => fail e
  | Response StatusCode Body =>
      if (StatusCode =? StatusNotFound)%Z then ret ""
      else if negb (StatusCode =? StatusOK)%Z
      then fail (unexpectedStatus StatusCode)
      else
        match Body with
        | Failed e => fail e
        | Done body =>
            match unmarshalZone host body with
            | Failed e => fail e
            | Done electricityMapsResp => ret (Zone electricityMapsResp)
            end
        end
  end.

Definition geolocationRequest (location locationType : string) : Request :=
  {| URL := openStreetMapBaseURL;
     Query := [(locationType, location); ("format", "json"); ("limit", "1")];
     Header := [];
     BasicAuth := None |}.

Definition getGeolocation (location locationType : string)
  : M (float * float) :=
  out <- Do (geolocationRequest location locationType) ;;
  match out with
  | TransportError e => fail e
  | Response StatusCode Body =>
      if negb (StatusCode =? StatusOK)%Z
      then fail (unexpectedStatus StatusCode)
      else
        match Body with
        | Failed e => fail e
        | Done body =>
            match unmarshalPlaces host body with
            | Failed e => fail e
            | Done places =>
                if (length places =? 1)%nat then
                  p <- lift (index places 0) ;;
                  match ParseFloat host (Lat p) with
                  | Failed e => fail e
                  | Done latitude =>
                      match ParseFloat host (Lon p) with
                      | Failed e => fail e
                      | Done longitude => ret (latitude, longitude)
                      end
                  end
                else ret (0%float, 0%float)
            end
        end
  end.

Definition loginRequest (apiUser apiPassword : string) : Request :=
  {| URL := wattTimeLoginURL;
     Query := [];
     Header := [];
     BasicAuth := Some (apiUser, apiPassword) |}.

Definition getWattTimeAccessToken (apiUser apiPassword : string)
  : M string :=
  out <- Do (loginRequest apiUser apiPassword) ;;
  match out with
  | TransportError e => fail e
  | Response StatusCode Body =>
      if negb (StatusCode =? StatusOK)%Z
      then fail (unexpectedStatus StatusCode)
      else
        match Body with
        | Failed _ => ret ""
        | Done bytes =>
            match unmarshalLogin host bytes with
            | Failed _ => ret ""
            | Done loginResp => ret (Token loginResp)
            end
        end
  end.

Definition regionRequest (accessToken : string)
    (latitude longitude : float) : Request :=
  {| URL := wattTimeRegionURL;
     Query := [("latitude", fmt.f latitude);
               ("longitude", fmt.f longitude);
               ("signal_type", "co2_moer")];
     Header := [("Authorization", "Bearer " ++ accessToken)];
     BasicAuth := None |}.

Definition getWattTimeRegion (accessToken : string)
    (latitude longitude : float) : M string :=
  out <- Do (regionRequest accessToken latitude longitude) ;;
  match out with
  | TransportError e => fail e
  | Response StatusCode Body =>
      if (StatusCode =? StatusNotFound)%Z then ret ""
      else if negb (StatusCode =? StatusOK)%Z
      then fail (unexpectedStatus StatusCode)
      else
        match Body with
        | Failed _ => ret ""
        | Done bytes =>
            match unmarshalRegion host bytes with
            | Failed _ => ret ""
            | Done regionResp => ret (Region_ regionResp)
            end
        end
  end.

Definition OpenFile (fileName : string) : M (list csv.Line) :=
  fun w =>
    match Open proc fileName with
    | Done file => (Ok file, w, [EvOpen fileName])
    | Failed e => (Err e, w, [EvOpen fileName])
    end.

Definition nonEmpty (s : string) : bool := negb (s =? "").

(** The body of the loop of [loadRegions] once a record has been read:
    the coordinates, then the [Region] literal. *)
Definition loadRecord (record : list string) : M Region :=
  r6 <- lift (index record 6) ;;
  both <- (if nonEmpty r6
           then r7 <- lift (index record 7) ;; ret (nonEmpty r7)
           else ret false) ;;
  coords <-
    (if both : bool then
       r6 <- lift (index record 6) ;;
       match ParseFloat host r6 with
       | Failed e => fail e
       | Done latitude =>
           r7 <- lift (index record 7) ;;
           match ParseFloat host r7 with
           | Failed e => fail e
           | Done longitude => ret (latitude, longitude)
           end
       end
     else
       cloudProvider <- lift (index record 0) ;;
       location <- lift (index record 2) ;;
       locationOverride <- lift (index record 3) ;;
       let location :=
         if nonEmpty locationOverride then locationOverride else location in
       locationType <- lift (index record 5) ;;
       location <-
         (if (locationOverride =? "") && (cloudProvider =? awsCloudProvider)
          then lift (parseAWSLocation location)
          else ret location) ;;
       getGeolocation location locationType) ;;
  f0 <- lift (index record 0) ;;
  f1 <- lift (index record 1) ;;
  f2 <- lift (index record 2) ;;
  f3 <- lift (index record 3) ;;
  f4 <- lift (index record 4) ;;
  f5 <- lift (index record 5) ;;
  f8 <- lift (index record 8) ;;
  f9 <- lift (index record 9) ;;
  ret {| CloudProvider := f0;
         CloudRegion := f1;
         Location := f2;
         LocationOverride := f3;
         LocationSource := f4;
         LocationType := f5;
         Latitude := fst coords;
         Longitude := snd coords;
         ElectricityMapsZone := f8;
         WattTimeRegion := f9 |}.

(** The [for] loop of [loadRegions] over what is left of the input.  At
    the end of the input [reader.Read] returns [io.EOF], which is not
    [csv.ErrFieldCount], and the loop breaks. *)
Fixpoint loadLoop (FieldsPerRecord : Z) (input : list csv.Line)
    (regions : list Region) : M (list Region) :=
  match input with
  | [] => ret regions
  | l :: rest =>
      let '(record, err, n) := csv.readRecord FieldsPerRecord l in
      match err with
      | Some e =>
          if error_identical e ErrFieldCount
          then loadLoop n rest regions
          else ret regions
      | None =>
          region <- loadRecord record ;;
          loadLoop n rest (regions ++ [region])%list
      end
  end.

Definition loadRegions (fileName : string) : M (list Region) :=
  file <- OpenFile fileName ;;
  let '(_, err, reader) := csv.Read (csv.NewReader file) in
  match err with
  | Some e => fail e
  | None => loadLoop (csv.FieldsPerRecord reader) (csv.input reader) []
  end.

Definition setZone (region : Region) (zone : string) : Region :=
  {| CloudProvider := CloudProvider region;
     CloudRegion := CloudRegion region;
     Location := Location region;
     LocationOverride := LocationOverride region;
     LocationSource := LocationSource region;
     LocationType := LocationType region;
     Latitude := Latitude region;
     Longitude := Longitude region;
     ElectricityMapsZone := zone;
     WattTimeRegion := WattTimeRegion region |}.

Definition setRegion (region : Region) (regionID : string) : Region :=
  {| CloudProvider := CloudProvider region;
     CloudRegion := CloudRegion region;
     Location := Location region;
     LocationOverride := LocationOverride region;
     LocationSource := LocationSource region;
     LocationType := LocationType region;
     Latitude := Latitude region;
     Longitude := Longitude region;
     ElectricityMapsZone := ElectricityMapsZone region;
     WattTimeRegion := regionID |}.

(** The body of the first loop of [mainWithError]. *)
Definition enrichRegion (electricityMapsAPIKey wattTimeAccessToken : string)
    (region : Region) : M Region :=
  region <-
    (if ElectricityMapsZone region =? ""
     then zone <- getElectricityMapsZone electricityMapsAPIKey
                    (Latitude region) (Longitude region) ;;
          ret (setZone region zone)
     else ret region) ;;
  region <-
    (if WattTimeRegion region =? ""
     then regionID <- getWattTimeRegion wattTimeAccessToken
                        (Latitude region) (Longitude region) ;;
          ret (setRegion region regionID)
     else ret region) ;;
  Sleep 1 ;;;
  ret region.

Fixpoint enrich (electricityMapsAPIKey wattTimeAccessToken : string)
    (regions : list Region) : M (list Region) :=
  match regions with
  | [] => ret []
  | region :: rest =>
      region' <- enrichRegion electricityMapsAPIKey wattTimeAccessToken
                   region ;;
      rest' <- enrich electricityMapsAPIKey wattTimeAccessToken rest ;;
      ret (region' :: rest')
  end.

(** The row written for a region. *)
Definition recordOf (region : Region) : list string :=
  [ CloudProvider region; CloudRegion region; Location region;
    LocationOverride region; LocationSource region; LocationType region;
    fmt.f (Latitude region); fmt.f (Longitude region);
    ElectricityMapsZone region; WattTimeRegion region ].

(** The second loop of [mainWithError]. *)
Fixpoint writeRegions (regions : list Region) : M unit :=
  match regions with
  | [] => ret tt
  | region :: rest =>
      err <- Write (recordOf region) ;;
      match err with
      | Some e => fail e
      | None => writeRegions rest
      end
  end.

Definition mainWithError : M unit :=
  let electricityMapsAPIKey := Getenv proc electricityMapsAPIKeyEnvVar in
  if electricityMapsAPIKey =? "" then fail (mustBeSet electricityMapsAPIKey)
  else
    let wattTimeUser := Getenv proc wattTimeUserEnvVar in
    if wattTimeUser =? "" then fail (mustBeSet wattTimeUserEnvVar)
    else
      let wattTimePassword := Getenv proc wattTimePasswordEnvVar in
      if wattTimePassword =? "" then fail (mustBeSet wattTimePasswordEnvVar)
      else
        wattTimeAccessToken <-
          getWattTimeAccessToken wattTimeUser wattTimePassword ;;
        fileName <- lift (index (Args proc) 1) ;;
        regions <- loadRegions fileName ;;
        regions <- enrich electricityMapsAPIKey wattTimeAccessToken
                     regions ;;
        err <- Write header ;;
        match err with
        | Some e => fail e
        | None =>
            writeRegions regions ;;;
            err <- Flush ;;
            match err with
            | Some e => fail e
            | None => ret tt
            end
        end.

End Program.

Arguments ret {host A} a.
Arguments fail {host A} e.
Arguments lift {host A} r.
Arguments bind {host A B} m k.

(** ** A stub host to run the program on

    A stateless server given by a function from requests to outcomes, a
    standard output that never fails, and small stand-ins for [strconv]
    and [encoding/json] that understand the literals used below: plain
    decimal numbers of at most fifteen digits, the special values as [%f]
    prints them, and flat JSON objects with string fields. *)
Module Stub.

Definition dq : string := String (ascii_of_nat 34) "".

Definition syntaxError : error := ErrorString "invalid syntax".

Definition digitVal (c : ascii) : option Z :=
  let n := Z.of_nat (nat_of_ascii c) in
  if (48 <=? n)%Z && (n <=? 57)%Z then Some (n - 48)%Z else None.

(** Reads [digits[.digits]]: the digits as one integer, the number of
    digits read, and the number of them after the point. *)
Fixpoint scan (s : string) (seenPoint : bool) (mant : Z) (nd frac : nat)
  : option (Z * nat * nat) :=
  match s with
  | EmptyString => Some (mant, nd, frac)
  | String c s' =>
      if Ascii.eqb c "." then
        if seenPoint then None else scan s' true mant nd frac
      else
        match digitVal c with
        | Some v =>
            scan s' seenPoint (10 * mant + v)%Z (S nd)
                 (if seenPoint then S frac else frac)
        | None => None
        end
  end.

Definition unsignedFloat (s : string) : IoResult float :=
  match scan s false 0 0 0 with
  | Some (mant, nd, frac) =>
      if ((0 <? nd) && (nd <=? 15))%nat
      then Done (PrimFloat.of_uint63 (Uint63.of_Z mant) /
                 PrimFloat.of_uint63 (Uint63.of_Z (10 ^ Z.of_nat frac)))%float
      else Failed syntaxError
  | None => Failed syntaxError
  end.

Definition parseFloat (s : string) : IoResult float :=
  if s =? "NaN" then Done PrimFloat.nan
  else if s =? "+Inf" then Done PrimFloat.infinity
  else if s =? "-Inf" then Done PrimFloat.neg_infinity
  else
    match s with
    | String "-" s' =>
        match unsignedFloat s' with
        | Done x => Done (- x)%float
        | Failed e => Failed e
        end
    | String "+" s' => unsignedFloat s'
    | _ => unsignedFloat s
    end.

(** The JSON text of a flat object with string fields. *)
Fixpoint members (kvs : list (string * string)) : string :=
  match kvs with
  | [] => ""
  | [(k, v)] => dq ++ k ++ dq ++ ":" ++ dq ++ v ++ dq
  | (k, v) :: rest =>
      dq ++ k ++ dq ++ ":" ++ dq ++ v ++ dq ++ "," ++ members rest
  end.

Definition object (kvs : list (string * string)) : string :=
  "{" ++ members kvs ++ "}".

Fixpoint elements (objs : list string) : string :=
  match objs with
  | [] => ""
  | [o] => o
  | o :: rest => o ++ "," ++ elements rest
  end.

Definition array (objs : list string) : string := "[" ++ elements objs ++ "]".

(** The string value of [key] in a flat object; absent gives [""]. *)
Definition field (key body : string) : string :=
  match strings.Split body (dq ++ key ++ dq ++ ":" ++ dq) with
  | _ :: rest :: _ => hd "" (strings.Split rest dq)
  | _ => ""
  end.

Definition decodeObject {A} (mk : string -> A) (key body : string)
  : IoResult A :=
  if strings.HasPrefix body "{" && strings.HasSuffix body "}"
  then Done (mk (field key body))
  else Failed (ErrorString "invalid character looking for beginning of value").

Definition decodePlaces (body : string)
  : IoResult (list OpenStreetMapPlace) :=
  if strings.HasPrefix body "[" && strings.HasSuffix body "]"
  then Done (map (fun o => {| Lat := field "lat" o; Lon := field "lon" o |})
                 (tl (strings.Split body "{")))
  else Failed (ErrorString "invalid character looking for beginning of value").

Definition host (server : Request -> HttpOutcome) : Host :=
  {| World := unit;
     clientDo := fun req w => (server req, w);
     stdoutWrite := fun _ w => (None, w);
     stdoutFlush := fun w => (None, w);
     ParseFloat := parseFloat;
     unmarshalZone := decodeObject (fun z => {| Zone := z |}) "zone";
     unmarshalPlaces := decodePlaces;
     unmarshalLogin := decodeObject (fun t => {| Token := t |}) "token";
     unmarshalRegion :=
       decodeObject (fun r => {| Region_ := r |}) "region" |}.

(** A process with the three variables set and one input file,
    [regions.csv]. *)
Definition getenv (name : string) : string :=
  if name =? electricityMapsAPIKeyEnvVar then "key"
  else if name =? wattTimeUserEnvVar then "user"
  else if name =? wattTimePasswordEnvVar then "secret"
  else "".

Definition process (file : list csv.Line) : Process :=
  {| Getenv := getenv;
     Args := ["main"; "regions.csv"];
     Open := fun name =>
       if name =? "regions.csv" then Done file
       else Failed (ErrorString "no such file or directory") |}.

(** A server that answers every known endpoint with [200]: one geocoder
    candidate, zone [US-VA], region [PJM_DC], token [tok]. *)
Definition server (req : Request) : HttpOutcome :=
  if URL req =? openStreetMapBaseURL
  then Response 200
         (Done (array [object [("lat", "37.5"); ("lon", "-78.625")]]))
  else if URL req =? electricityMapsBaseURL
  then Response 200 (Done (object [("zone", "US-VA")]))
  else if URL req =? wattTimeLoginURL
  then Response 200 (Done (object [("token", "tok")]))
  else if URL req =? wattTimeRegionURL
  then Response 200 (Done (object [("region", "PJM_DC")]))
  else Response 404 (Done "").

(** The same with another status for the two lookups, and with another
    list of geocoder candidates. *)
Definition serverStatus (code : Z) (req : Request) : HttpOutcome :=
  if (URL req =? electricityMapsBaseURL) || (URL req =? wattTimeRegionURL)
  then Response code (Done "")
  else server req.

Definition serverPlaces (places : list string) (req : Request)
  : HttpOutcome :=
  if URL req =? openStreetMapBaseURL
  then Response 200 (Done (array places))
  else server req.

(** A server that answers every request with [200] and the given
    body. *)
Definition serverBody (body : IoResult string) (req : Request)
  : HttpOutcome :=
  Response 200 body.


(** The stub server with another status for the login. *)
Definition serverLogin (code : Z) (req : Request) : HttpOutcome :=
  if URL req =? wattTimeLoginURL
  then Response code (Done "")
  else server req.

(** A process started without a file name, and one with the API key
    only. *)
Definition noArguments : Process :=
  {| Getenv := getenv;
     Args := ["main"];
     Open := fun _ => Failed (ErrorString "no such file or directory") |}.

Definition keyOnly : Process :=
  {| Getenv := fun name =>
       if name =? electricityMapsAPIKeyEnvVar then "key" else "";
     Args := ["main"; "regions.csv"];
     Open := fun _ => Failed (ErrorString "no such file or directory") |}.

(** A process without any of the variables. *)
Definition bare : Process :=
  {| Getenv := fun _ => "";
     Args := ["main"; "regions.csv"];
     Open := fun _ => Failed (ErrorString "no such file or directory") |}.

(** A row with its coordinates, zone and region filled in, and the same
    row with the two lookup fields empty and coordinates [(0, 0)]. *)
Definition paris : Region :=
  {| CloudProvider := "Google Cloud";
     CloudRegion := "europe-west9";
     Location := "Paris";
     LocationOverride := "";
     LocationSource := "manual";
     LocationType := "city";
     Latitude := 48.5;
     Longitude := 2.25;
     ElectricityMapsZone := "FR";
     WattTimeRegion := "FR" |}.

Definition nowhere : Region :=
  {| CloudProvider := "Google Cloud";
     CloudRegion := "europe-west9";
     Location := "Paris";
     LocationOverride := "";
     LocationSource := "manual";
     LocationType := "city";
     Latitude := 0;
     Longitude := 0;
     ElectricityMapsZone := "";
     WattTimeRegion := "" |}.

Definition virginia : list string :=
  [ "Amazon Web Services"; "us-east-1"; "US East (N. Virginia)"; "";
    "manual"; "city"; ""; ""; ""; "" ].

End Stub.

(** ** Observations on runs *)

Definition result {A W} (x : Res A * W * list Event) : Res A := fst (fst x).
Definition world {A W} (x : Res A * W * list Event) : W := snd (fst x).
Definition events {A W} (x : Res A * W * list Event) : list Event := snd x.

(** The request of an event goes to the endpoint [url]. *)
Definition requestTo (url : string) (e : Event) : bool :=
  match e with
  | EvHTTP req _ => URL req =? url
  | _ => false
  end.

Definition isZoneLookup : Event -> bool := requestTo electricityMapsBaseURL.
Definition isRegionLookup : Event -> bool := requestTo wattTimeRegionURL.
Definition isLookup (e : Event) : bool := isZoneLookup e || isRegionLookup e.


(** A header or a row handed to the CSV writer. *)
Definition isOutput (e : Event) : bool :=
  match e with
  | EvWrite _ => true
  | _ => false
  end.

(** The status code received, if a response was received. *)
Definition statusOf (e : Event) : option Z :=
  match e with
  | EvHTTP _ (Response code _) => Some code
  | _ => None
  end.

(** A zone or region lookup that received a status other than 200 and
    404. *)
Definition failedLookup (e : Event) : bool :=
  isLookup e &&
  match statusOf e with
  | Some code => negb (code =? StatusOK)%Z && negb (code =? StatusNotFound)%Z
  | None => false
  end.




(** The records written, in order. *)
Fixpoint written (evs : list Event) : list (list string) :=
  match evs with
  | [] => []
  | EvWrite record :: rest => record :: written rest
  | _ :: rest => written rest
  end.

(** The written records read back as an input file, one record a line. *)
Fixpoint asInputFrom (line : Z) (records : list (list string))
  : list csv.Line :=
  match records with
  | [] => []
  | record :: rest => csv.Fields line record :: asInputFrom (line + 1) rest
  end.

Definition asInput (records : list (list string)) : list csv.Line :=
  asInputFrom 1 records.

(** The [Res] of a list with one more element in front. *)
Definition consRes {A} (a : A) (r : Res (list A)) : Res (list A) :=
  match r with
  | Ok l => Ok (a :: l)
  | Err e => Err e
  | Panic msg => Panic msg
  end.

(** A body that cannot be turned into a value: reading it failed, or its
    bytes do not decode. *)
Definition undecodable {A} (decode : string -> IoResult A)
    (body : IoResult string) : Prop :=
  match body with
  | Failed _ => True
  | Done bytes => exists e, decode bytes = Failed e
  end.

(** A computation that, from any world, performs no event satisfying
    [P]. *)
Definition silent {A W} (P : Event -> bool)
    (m : W -> Res A * W * list Event) : Prop :=
  forall w, existsb P (events (m w)) = false.

(** A computation that writes no output and that returns an error
    whenever one of its lookups failed. *)
Definition guarded {A W} (m : W -> Res A * W * list Event) : Prop :=
  forall w,
    existsb isOutput (events (m w)) = false /\
    (existsb failedLookup (events (m w)) = true ->
     exists e, result (m w) = Err e).

(** A computation in which a failed lookup means an error result and no
    output at all. *)
Definition abortsCleanly {A W} (m : W -> Res A * W * list Event) : Prop :=
  forall w,
    existsb failedLookup (events (m w)) = true ->
    (exists e, result (m w) = Err e) /\
    existsb isOutput (events (m w)) = false.

(** What the enrichment pass may change in a record: a zone or a region
    that was empty. *)
Definition keepsPopulated (r r' : Region) : Prop :=
  CloudProvider r' = CloudProvider r /\
  CloudRegion r' = CloudRegion r /\
  Location r' = Location r /\
  LocationOverride r' = LocationOverride r /\
  LocationSource r' = LocationSource r /\
  LocationType r' = LocationType r /\
  Latitude r' = Latitude r /\
  Longitude r' = Longitude r /\
  (ElectricityMapsZone r <> "" ->
   ElectricityMapsZone r' = ElectricityMapsZone r) /\
  (WattTimeRegion r <> "" -> WattTimeRegion r' = WattTimeRegion r).

Definition emptyZone (r : Region) : bool := ElectricityMapsZone r =? "".
Definition emptyRegion (r : Region) : bool := WattTimeRegion r =? "".

Definition isSleep (e : Event) : bool :=
  match e with
  | EvSleep _ => true
  | _ => false
  end.

(** The eight text fields of a region are the corresponding fields of a
    record. *)
Definition textFieldsOf (record : list string) (r : Region) : Prop :=
  nth_error record 0 = Some (CloudProvider r) /\
  nth_error record 1 = Some (CloudRegion r) /\
  nth_error record 2 = Some (Location r) /\
  nth_error record 3 = Some (LocationOverride r) /\
  nth_error record 4 = Some (LocationSource r) /\
  nth_error record 5 = Some (LocationType r) /\
  nth_error record 8 = Some (ElectricityMapsZone r) /\
  nth_error record 9 = Some (WattTimeRegion r).

(** A region made from the fields of a line of the input. *)
Definition loadedFrom (l : csv.Line) (r : Region) : Prop :=
  match l with
  | csv.Fields _ fields => textFieldsOf fields r
  | csv.Corrupt _ => False
  end.

Definition isFields (l : csv.Line) : bool :=
  match l with
  | csv.Fields _ _ => true
  | csv.Corrupt _ => false
  end.

(** The region built from the fields of a record and a pair of
    coordinates. *)
Definition regionOfFields (f0 f1 f2 f3 f4 f5 f8 f9 : string)
    (coords : float * float) : Region :=
  {| CloudProvider := f0;
     CloudRegion := f1;
     Location := f2;
     LocationOverride := f3;
     LocationSource := f4;
     LocationType := f5;
     Latitude := fst coords;
     Longitude := snd coords;
     ElectricityMapsZone := f8;
     WattTimeRegion := f9 |}.

(** A result with a function applied to its value. *)
Definition mapRes {A B} (f : A -> B) (r : Res A) : Res B :=
  match r with
  | Ok a => Ok (f a)
  | Err e => Err e
  | Panic msg => Panic msg
  end.

(** An event of the enrichment of the region [r]: the sleep, or a lookup
    of a field of [r] that is empty, at the coordinates of [r]. *)
Definition enrichmentEvent (key token : string) (r : Region) (ev : Event)
  : Prop :=
  ev = EvSleep 1
  \/ (ElectricityMapsZone r = "" /\
      exists out,
        ev = EvHTTP (zoneRequest key (Latitude r) (Longitude r)) out)
  \/ (WattTimeRegion r = "" /\
      exists out,
        ev = EvHTTP (regionRequest token (Latitude r) (Longitude r)) out).

(** Whatever is written starts with the header. *)
Definition headerFirst {A W} (m : W -> Res A * W * list Event) : Prop :=
  forall w,
    written (events (m w)) = []
    \/ exists rows, written (events (m w)) = header :: rows.

(** A line with the fields of a record of ten fields. *)
Definition tenFields (l : csv.Line) : Prop :=
  match l with
  | csv.Fields _ fields => length fields = 10
  | csv.Corrupt _ => False
  end.

(** ** Running the model *)

Example f_37_5 : fmt.f 37.5 = "37.500000".
Proof. vm_compute. reflexivity. Qed.
Example f_m78_625 : fmt.f (-78.625) = "-78.625000".
Proof. vm_compute. reflexivity. Qed.
Example f_zero : fmt.f 0 = "0.000000".
Proof. vm_compute. reflexivity. Qed.
Example f_tie : fmt.f 0.0078125 = "0.007812".
Proof. vm_compute. reflexivity. Qed.
Example f_tie_up : fmt.f 0.0234375 = "0.023438".
Proof. vm_compute. reflexivity. Qed.
Example f_big : fmt.f 1e22 = "10000000000000000000000.000000".
Proof. vm_compute. reflexivity. Qed.
Example f_small : fmt.f (-0x1p-30) = "-0.000000".
Proof. vm_compute. reflexivity. Qed.
Example d_500 : fmt.d 500 = "500".
Proof. vm_compute. reflexivity. Qed.

Example parse_virginia :
  parseAWSLocation "US East (N. Virginia)" = Ok "N. Virginia".
Proof. reflexivity. Qed.

Example parse_paris : parseAWSLocation "Paris" = Panic "index out of range".
Proof. reflexivity. Qed.


Example stub_parse_37_5 : Stub.parseFloat "37.500000" = Done 37.5%float.
Proof. vm_compute. reflexivity. Qed.

Example stub_parse_word : Stub.parseFloat "north" = Failed Stub.syntaxError.
Proof. vm_compute. reflexivity. Qed.

(** The scenario of one AWS row without coordinates: the row comes out
    with the coordinates of the single geocoder candidate, the zone and
    the region. *)
Example scenario_virginia :
  written (events (mainWithError (Stub.host Stub.server)
             (Stub.process [csv.Fields 1 header; csv.Fields 2 Stub.virginia])
             tt))
  = [ header;
      [ "Amazon Web Services"; "us-east-1"; "US East (N. Virginia)"; "";
        "manual"; "city"; "37.500000"; "-78.625000"; "US-VA"; "PJM_DC" ] ].
Proof. vm_compute. reflexivity. Qed.

(** ** Strings *)

Lemma append_empty_r (s : string) : s ++ "" = s.
Proof. induction s as [| c s IH]; simpl; congruence. Qed.

Lemma append_assoc (a b c : string) : (a ++ b) ++ c = a ++ (b ++ c).
Proof. induction a as [| x a IH]; simpl; congruence. Qed.

Lemma append_cons_nonempty (a b : string) (c : ascii) :
  a ++ String c b <> "".
Proof. destruct a; discriminate. Qed.

(** [%f] never prints the empty string. *)
Lemma fmt_f_nonempty (x : float) : fmt.f x <> "".
Proof.
  unfold fmt.f.
  destruct (Prim2SF x) as [[|] | [|] | | [|] m e]; try discriminate.
  apply (append_cons_nonempty _ _ "."%char).
Qed.

Lemma prefix_paren (c : ascii) (s : string) :
  String.prefix "(" (String c s) = Ascii.eqb c "(".
Proof.
  change (String.prefix "(" (String c s))
    with (if ascii_dec "(" c then String.prefix "" s else false).
  destruct (ascii_dec "(" c) as [<- | Hne].
  - now destruct s.
  - symmetry. apply Ascii.eqb_neq. congruence.
Qed.

Lemma Contains_paren_cons (c : ascii) (s : string) :
  strings.Contains (String c s) "("
  = Ascii.eqb c "(" || strings.Contains s "(".
Proof.
  change (strings.Contains (String c s) "(")
    with (String.prefix "(" (String c s) || strings.Contains s "(").
  now rewrite prefix_paren.
Qed.

(** Without a parenthesis the input is the only piece of the split. *)
Lemma genSplit_no_paren (s cur : string) :
  strings.Contains s "(" = false ->
  strings.genSplit "(" s 0 cur = [cur ++ s].
Proof.
  revert cur. induction s as [| c s IH]; intros cur H.
  - simpl. now rewrite append_empty_r.
  - rewrite Contains_paren_cons in H.
    apply orb_false_iff in H as [Hc Hs].
    cbn [strings.genSplit]. rewrite prefix_paren, Hc.
    rewrite (IH _ Hs). f_equal.
    now rewrite append_assoc.
Qed.

(** ** C1: [parseAWSLocation] *)

(** C1.  On an input without ['('] the split has one piece, the guard
    [len(split) > 0] holds and [split[1]] is out of range: the function
    panics instead of returning a value.  On ["US East (N. Virginia)"] it
    returns ["N. Virginia"]. *)
Theorem parseAWSLocation_panics_without_paren (input : string) :
  strings.Contains input "(" = false ->
  parseAWSLocation input = Panic "index out of range"
  /\ parseAWSLocation "US East (N. Virginia)" = Ok "N. Virginia".
Proof.
  intros H. split; [| reflexivity].
  unfold parseAWSLocation, strings.Split.
  now rewrite (genSplit_no_paren _ "" H).
Qed.

Lemma parseAWSLocation_Paris :
  strings.Contains "Paris" "(" = false
  /\ parseAWSLocation "Paris" = Panic "index out of range"
  /\ parseAWSLocation "US East (N. Virginia)" = Ok "N. Virginia".
Proof.
  split; [reflexivity |].
  apply (parseAWSLocation_panics_without_paren "Paris"). reflexivity.
Defined.

(** ** [parseAWSLocation] on inputs with a parenthesis *)

Lemma length_append (a b : string) :
  String.length (a ++ b) = String.length a + String.length b.
Proof. induction a as [| c a IH]; simpl; congruence. Qed.

Lemma genSplit_nonempty (sep s : string) :
  forall skip cur, strings.genSplit sep s skip cur <> [].
Proof.
  induction s as [| c s IH]; intros skip cur; cbn [strings.genSplit].
  - discriminate.
  - destruct skip; [| apply IH].
    destruct (String.prefix sep (String c s)); [discriminate | apply IH].
Qed.

(** Up to the first parenthesis: the first piece, then the split of what
    follows it. *)
Lemma genSplit_at_paren (before rest cur : string) :
  strings.Contains before "(" = false ->
  strings.genSplit "(" (before ++ String "(" rest) 0 cur
  = (cur ++ before) :: strings.genSplit "(" rest 0 "".
Proof.
  revert cur. induction before as [| c before IH]; intros cur H.
  - cbn [append strings.genSplit]. rewrite prefix_paren. cbn.
    now rewrite append_empty_r.
  - rewrite Contains_paren_cons in H.
    apply orb_false_iff in H as [Hc Hs].
    cbn [append strings.genSplit]. rewrite prefix_paren, Hc.
    rewrite (IH _ Hs). now rewrite append_assoc.
Qed.

(** With a parenthesis in the input there are at least two pieces. *)
Lemma genSplit_two_pieces (s : string) :
  forall cur,
    strings.Contains s "(" = true ->
    exists first second others,
      strings.genSplit "(" s 0 cur = first :: second :: others.
Proof.
  induction s as [| c s IH]; intros cur H; [discriminate |].
  rewrite Contains_paren_cons in H.
  cbn [strings.genSplit]. rewrite prefix_paren.
  destruct (Ascii.eqb c "(") eqn:Hc.
  - cbn. destruct (strings.genSplit "(" s 0 "") as [| x xs] eqn:Hs.
    + now destruct (genSplit_nonempty _ _ _ _ Hs).
    + now exists cur, x, xs.
  - cbn in H. apply (IH _ H).
Qed.

Lemma substring_at_end (s : string) (c : ascii) :
  substring (String.length s) 1 (s ++ String c "") = String c "".
Proof. induction s as [| x s IH]; [reflexivity | exact IH]. Qed.

Lemma HasSuffix_closing (s : string) :
  strings.HasSuffix (s ++ ")") ")" = true.
Proof.
  unfold strings.HasSuffix. rewrite length_append. cbn [String.length].
  replace (String.length s + 1 - 1) with (String.length s) by lia.
  rewrite substring_at_end.
  replace (1 <=? String.length s + 1)%nat with true
    by (symmetry; apply Nat.leb_le; lia).
  reflexivity.
Qed.

Lemma prefix_closing (c : ascii) (s : string) :
  String.prefix ")" (String c s) = Ascii.eqb c ")".
Proof.
  change (String.prefix ")" (String c s))
    with (if ascii_dec ")" c then String.prefix "" s else false).
  destruct (ascii_dec ")" c) as [<- | Hne].
  - now destruct s.
  - symmetry. apply Ascii.eqb_neq. congruence.
Qed.

Lemma Contains_closing_cons (c : ascii) (s : string) :
  strings.Contains (String c s) ")"
  = Ascii.eqb c ")" || strings.Contains s ")".
Proof.
  change (strings.Contains (String c s) ")")
    with (String.prefix ")" (String c s) || strings.Contains s ")").
  now rewrite prefix_closing.
Qed.

Lemma genReplace_copies (old new s : string) :
  strings.genReplace old new s 0 0 = s.
Proof. induction s as [| c s IH]; cbn; congruence. Qed.

(** Removing the first closing parenthesis of [name ++ ")" ++ rest] when
    [name] has none. *)
Lemma Replace_first_closing (name rest : string) :
  strings.Contains name ")" = false ->
  strings.Replace (name ++ String ")" rest) ")" "" 1 = name ++ rest.
Proof.
  unfold strings.Replace. induction name as [| c name IH]; intros H.
  - cbn [append strings.genReplace]. rewrite prefix_closing. cbn.
    apply genReplace_copies.
  - rewrite Contains_closing_cons in H.
    apply orb_false_iff in H as [Hc Hs].
    cbn [append strings.genReplace]. rewrite prefix_closing, Hc. cbn.
    now rewrite (IH Hs).
Qed.

(** X1.  When the location reads [before(name)], with no parenthesis in
    [before] and none in [name], [parseAWSLocation] returns [name]. *)
Theorem parseAWSLocation_extracts_the_name (before name : string) :
  strings.Contains before "(" = false ->
  strings.Contains name "(" = false ->
  strings.Contains name ")" = false ->
  parseAWSLocation (before ++ "(" ++ name ++ ")") = Ok name.
Proof.
  intros Hb Hopen Hclose.
  unfold parseAWSLocation, strings.Split.
  change ("(" ++ name ++ ")") with (String "(" (name ++ ")")).
  rewrite (genSplit_at_paren before (name ++ ")") "" Hb).
  assert (Hrest : strings.Contains (name ++ ")") "(" = false).
  { clear Hb Hclose. induction name as [| c name IH]; [reflexivity |].
    rewrite Contains_paren_cons in Hopen.
    apply orb_false_iff in Hopen as [Hc Hs].
    cbn [append]. now rewrite Contains_paren_cons, Hc, (IH Hs). }
  rewrite (genSplit_no_paren _ "" Hrest).
  cbn [length Nat.ltb Nat.leb index nth_error append].
  rewrite HasSuffix_closing, (Replace_first_closing name "" Hclose).
  now rewrite append_empty_r.
Qed.

Lemma parseAWSLocation_Ok_with_paren (input : string) :
  strings.Contains input "(" = true ->
  exists location, parseAWSLocation input = Ok location.
Proof.
  intros H. unfold parseAWSLocation, strings.Split.
  destruct (genSplit_two_pieces input "" H) as (first & second & others & ->).
  cbn. eauto.
Qed.

(** X2.  On every input that contains ['('], [parseAWSLocation] returns a
    value, and it never returns an error: it panics on no other input
    than those without ['(']. *)
Theorem parseAWSLocation_returns_with_paren (input : string) :
  (strings.Contains input "(" = true ->
   exists location, parseAWSLocation input = Ok location)
  /\ (forall e, parseAWSLocation input <> Err e).
Proof.
  split; [apply parseAWSLocation_Ok_with_paren |].
  intros e. unfold parseAWSLocation.
  destruct (0 <? length (strings.Split input "("))%nat; [| discriminate].
  unfold index. destruct (nth_error (strings.Split input "(") 1);
    discriminate.
Qed.

(** ** Sequencing *)

Section Sequencing.

Variable host : Host.

Lemma bind_ret_l {A B} (a : A) (k : A -> M host B) (w : World host) :
  bind (ret a) k w = k a w.
Proof. unfold bind, ret. now destruct (k a w) as [[r w2] t2]. Qed.

Lemma bind_Ok {A B} (m : M host A) (k : A -> M host B)
    (w w1 : World host) (a : A) (t1 : list Event) :
  m w = (Ok a, w1, t1) ->
  bind m k w
  = (result (k a w1), world (k a w1), t1 ++ events (k a w1))%list.
Proof.
  intros H. unfold bind. rewrite H. now destruct (k a w1) as [[r w2] t2].
Qed.

Lemma bind_ext {A B} (m : M host A) (k k' : A -> M host B)
    (w : World host) :
  (forall a w1, k a w1 = k' a w1) -> bind m k w = bind m k' w.
Proof.
  intros H. unfold bind.
  destruct (m w) as [[[a | e | msg] w1] t1]; try reflexivity.
  now rewrite H.
Qed.

Lemma bind_Err {A B} (m : M host A) (k : A -> M host B)
    (w w1 : World host) (e : error) (t1 : list Event) :
  m w = (Err e, w1, t1) -> bind m k w = (Err e, w1, t1).
Proof. intros H. unfold bind. now rewrite H. Qed.

Section Silent.

Variable P : Event -> bool.

Lemma silent_ret {A} (a : A) : silent P (@ret host A a).
Proof. now intros w. Qed.

Lemma silent_fail {A} (e : error) : silent P (@fail host A e).
Proof. now intros w. Qed.

Lemma silent_lift {A} (r : Res A) : silent P (@lift host A r).
Proof. now intros w. Qed.

Lemma silent_bind {A B} (m : M host A) (k : A -> M host B) :
  silent P m -> (forall a, silent P (k a)) -> silent P (bind m k).
Proof.
  intros Hm Hk w. specialize (Hm w). unfold bind.
  destruct (m w) as [[[a | e | msg] w1] t1]; cbn in *; auto.
  specialize (Hk a w1). destruct (k a w1) as [[r w2] t2]. cbn in *.
  rewrite existsb_app, Hm, Hk. reflexivity.
Qed.

Lemma silent_Do (req : Request) :
  (forall out, P (EvHTTP req out) = false) -> silent P (Do host req).
Proof.
  intros H w. unfold Do. destruct (clientDo host req w) as [out w'].
  cbn. now rewrite H.
Qed.

Lemma silent_Sleep (n : Z) :
  P (EvSleep n) = false -> silent P (Sleep host n).
Proof. intros H w. cbn. now rewrite H. Qed.

Lemma silent_Write (record : list string) :
  P (EvWrite record) = false -> silent P (Write host record).
Proof.
  intros H w. unfold Write.
  destruct (stdoutWrite host record w) as [e w']. cbn. now rewrite H.
Qed.

Lemma silent_Flush : P EvFlush = false -> silent P (Flush host).
Proof.
  intros H w. unfold Flush. destruct (stdoutFlush host w) as [e w'].
  cbn. now rewrite H.
Qed.

End Silent.

Lemma guarded_ret {A} (a : A) : guarded (@ret host A a).
Proof. intros w. cbn. split; [reflexivity | discriminate]. Qed.

Lemma guarded_fail {A} (e : error) : guarded (@fail host A e).
Proof. intros w. cbn. split; [reflexivity | discriminate]. Qed.

Lemma guarded_lift {A} (r : Res A) : guarded (@lift host A r).
Proof. intros w. cbn. split; [reflexivity | discriminate]. Qed.

Lemma guarded_bind {A B} (m : M host A) (k : A -> M host B) :
  guarded m -> (forall a, guarded (k a)) -> guarded (bind m k).
Proof.
  intros Hm Hk w. destruct (Hm w) as [Hout Hfail]. unfold bind.
  destruct (m w) as [[[a | e | msg] w1] t1]; cbn in *.
  - destruct (Hk a w1) as [Hout' Hfail'].
    destruct (k a w1) as [[r w2] t2]. cbn in *.
    rewrite !existsb_app, Hout, Hout'. split; [reflexivity |].
    intros H. apply orb_true_iff in H as [H | H]; auto.
    destruct (Hfail H) as [e He]. discriminate.
  - split; [assumption | eauto].
  - split; [assumption |].
    intros H. destruct (Hfail H) as [e He]. discriminate.
Qed.

Lemma guarded_Sleep (n : Z) : guarded (Sleep host n).
Proof. intros w. cbn. split; [reflexivity | discriminate]. Qed.

Lemma bind_Ok_inv {A B} (m : M host A) (k : A -> M host B)
    (w w' : World host) (b : B) (evs : list Event) :
  bind m k w = (Ok b, w', evs) ->
  exists a w1 t1 t2,
    m w = (Ok a, w1, t1) /\ k a w1 = (Ok b, w', t2)
    /\ evs = (t1 ++ t2)%list.
Proof.
  unfold bind. destruct (m w) as [[[a | e | msg] w1] t1]; try discriminate.
  destruct (k a w1) as [[r w2] t2] eqn:Hk. intros [= -> -> <-].
  now exists a, w1, t1, t2.
Qed.

Lemma lift_index_Ok {A} (xs : list A) (i : nat) (x : A)
    (w w1 : World host) (t1 : list Event) :
  @lift host A (index xs i) w = (Ok x, w1, t1) ->
  nth_error xs i = Some x /\ w1 = w /\ t1 = [].
Proof.
  unfold lift, index. destruct (nth_error xs i); intros [= <- <- <-]; auto.
Qed.

Lemma abortsCleanly_silent {A} (m : M host A) :
  silent failedLookup m -> abortsCleanly m.
Proof. intros H w Hf. rewrite H in Hf. discriminate. Qed.

Lemma abortsCleanly_bind {A B} (m : M host A) (k : A -> M host B) :
  guarded m -> (forall a, abortsCleanly (k a)) -> abortsCleanly (bind m k).
Proof.
  intros Hm Hk w. destruct (Hm w) as [Hout Hfail]. unfold bind.
  destruct (m w) as [[[a | e | msg] w1] t1]; cbn in *.
  - specialize (Hk a w1). destruct (k a w1) as [[r w2] t2]. cbn in *.
    rewrite !existsb_app, Hout. intros H.
    apply orb_true_iff in H as [H | H].
    + destruct (Hfail H) as [e He]. discriminate.
    + exact (Hk H).
  - intros _. eauto.
  - intros H. destruct (Hfail H) as [e He]. discriminate.
Qed.

End Sequencing.

(** ** The clients *)

Section Clients.

Variable host : Host.

(** C6.  When the geocoder answers [200] with a body that decodes to a
    list of zero or of more than one candidate, [getGeolocation] returns
    the coordinates [(0, 0)] and no error. *)
Theorem getGeolocation_unresolved
    (location locationType body : string)
    (places : list OpenStreetMapPlace) (w w' : World host) :
  clientDo host (geolocationRequest location locationType) w
    = (Response StatusOK (Done body), w') ->
  unmarshalPlaces host body = Done places ->
  length places <> 1 ->
  getGeolocation host location locationType w
    = (Ok (0%float, 0%float), w',
       [EvHTTP (geolocationRequest location locationType)
               (Response StatusOK (Done body))]).
Proof.
  intros Hdo Hjson Hlen.
  unfold getGeolocation, bind, Do. rewrite Hdo. cbn.
  rewrite Hjson.
  apply Nat.eqb_neq in Hlen. rewrite Hlen. reflexivity.
Qed.

(** C10.  In both WattTime calls, once the status is [200], a failure to
    read the body or to decode its JSON gives the empty string and a nil
    error. *)
Theorem wattTime_swallows_decoding_failures
    (apiUser apiPassword accessToken : string) (latitude longitude : float)
    (body : IoResult string) (w w' : World host) :
  (undecodable (unmarshalLogin host) body ->
   clientDo host (loginRequest apiUser apiPassword) w
     = (Response StatusOK body, w') ->
   getWattTimeAccessToken host apiUser apiPassword w
     = (Ok "", w',
        [EvHTTP (loginRequest apiUser apiPassword)
                (Response StatusOK body)]))
  /\ (undecodable (unmarshalRegion host) body ->
      clientDo host (regionRequest accessToken latitude longitude) w
        = (Response StatusOK body, w') ->
      getWattTimeRegion host accessToken latitude longitude w
        = (Ok "", w',
           [EvHTTP (regionRequest accessToken latitude longitude)
                   (Response StatusOK body)])).
Proof.
  split; intros Hbad Hdo.
  - unfold getWattTimeAccessToken, bind, Do. rewrite Hdo. cbn.
    destruct body as [bytes | e]; [| reflexivity].
    destruct Hbad as [e He]. now rewrite He.
  - unfold getWattTimeRegion, bind, Do. rewrite Hdo. cbn.
    destruct body as [bytes | e]; [| reflexivity].
    destruct Hbad as [e He]. now rewrite He.
Qed.

(** *** What each client does to the world: exactly one request. *)

Ltac client_cases :=
  unfold getElectricityMapsZone, getWattTimeRegion, getWattTimeAccessToken,
    getGeolocation, bind, Do;
  match goal with
  | |- context [clientDo ?h ?r ?w] =>
      destruct (clientDo h r w) as [[?e | ?code ?body] ?w']
  end;
  cbn;
  repeat match goal with
         | |- context [if ?b then _ else _] => destruct b eqn:?; cbn
         | |- context [match ?x with Done _ => _ | Failed _ => _ end] =>
             destruct x eqn:?; cbn
         | |- context [index ?l ?i] => destruct (index l i) eqn:?; cbn
         end.

Lemma getElectricityMapsZone_events
    (apiKey : string) (latitude longitude : float) (w : World host) :
  events (getElectricityMapsZone host apiKey latitude longitude w)
  = [EvHTTP (zoneRequest apiKey latitude longitude)
            (fst (clientDo host (zoneRequest apiKey latitude longitude) w))].
Proof. client_cases; reflexivity. Qed.

Lemma getWattTimeRegion_events
    (accessToken : string) (latitude longitude : float) (w : World host) :
  events (getWattTimeRegion host accessToken latitude longitude w)
  = [EvHTTP (regionRequest accessToken latitude longitude)
            (fst (clientDo host
                    (regionRequest accessToken latitude longitude) w))].
Proof. client_cases; reflexivity. Qed.

Lemma getWattTimeAccessToken_events
    (apiUser apiPassword : string) (w : World host) :
  events (getWattTimeAccessToken host apiUser apiPassword w)
  = [EvHTTP (loginRequest apiUser apiPassword)
            (fst (clientDo host (loginRequest apiUser apiPassword) w))].
Proof. client_cases; reflexivity. Qed.

Lemma getGeolocation_events
    (location locationType : string) (w : World host) :
  events (getGeolocation host location locationType w)
  = [EvHTTP (geolocationRequest location locationType)
            (fst (clientDo host
                    (geolocationRequest location locationType) w))].
Proof. client_cases; reflexivity. Qed.

(** *** The status policy of the two lookups. *)



Lemma zone_unexpected_status
    (apiKey : string) (latitude longitude : float) (code : Z)
    (body : IoResult string) (w w' : World host) :
  code <> StatusOK -> code <> StatusNotFound ->
  clientDo host (zoneRequest apiKey latitude longitude) w
    = (Response code body, w') ->
  getElectricityMapsZone host apiKey latitude longitude w
  = (Err (unexpectedStatus code), w',
     [EvHTTP (zoneRequest apiKey latitude longitude)
             (Response code body)]).
Proof.
  intros Hok Hnf H. unfold getElectricityMapsZone, bind, Do. rewrite H.
  apply Z.eqb_neq in Hok, Hnf. cbn. now rewrite Hok, Hnf.
Qed.

Lemma region_unexpected_status
    (accessToken : string) (latitude longitude : float) (code : Z)
    (body : IoResult string) (w w' : World host) :
  code <> StatusOK -> code <> StatusNotFound ->
  clientDo host (regionRequest accessToken latitude longitude) w
    = (Response code body, w') ->
  getWattTimeRegion host accessToken latitude longitude w
  = (Err (unexpectedStatus code), w',
     [EvHTTP (regionRequest accessToken latitude longitude)
             (Response code body)]).
Proof.
  intros Hok Hnf H. unfold getWattTimeRegion, bind, Do. rewrite H.
  apply Z.eqb_neq in Hok, Hnf. cbn. now rewrite Hok, Hnf.
Qed.



(** *** A 404 is an empty answer; an error comes from something else. *)





Lemma silent_getElectricityMapsZone (P : Event -> bool)
    (apiKey : string) (latitude longitude : float) :
  (forall out,
      P (EvHTTP (zoneRequest apiKey latitude longitude) out) = false) ->
  silent P (getElectricityMapsZone host apiKey latitude longitude).
Proof.
  intros H w. rewrite getElectricityMapsZone_events. cbn. now rewrite H.
Qed.

Lemma silent_getWattTimeRegion (P : Event -> bool)
    (accessToken : string) (latitude longitude : float) :
  (forall out,
      P (EvHTTP (regionRequest accessToken latitude longitude) out)
      = false) ->
  silent P (getWattTimeRegion host accessToken latitude longitude).
Proof.
  intros H w. rewrite getWattTimeRegion_events. cbn. now rewrite H.
Qed.



(** *** The clients write nothing, and a failed lookup is an error. *)

Lemma guarded_getElectricityMapsZone
    (apiKey : string) (latitude longitude : float) :
  guarded (getElectricityMapsZone host apiKey latitude longitude).
Proof.
  intros w. split.
  - now rewrite getElectricityMapsZone_events.
  - client_cases; unfold failedLookup; cbn;
      rewrite ?Heqb, ?Heqb0, ?andb_false_r; cbn; try discriminate; eauto.
Qed.

Lemma guarded_getWattTimeRegion
    (accessToken : string) (latitude longitude : float) :
  guarded (getWattTimeRegion host accessToken latitude longitude).
Proof.
  intros w. split.
  - now rewrite getWattTimeRegion_events.
  - client_cases; unfold failedLookup; cbn;
      rewrite ?Heqb, ?Heqb0, ?andb_false_r; cbn; try discriminate; eauto.
Qed.

Lemma guarded_getWattTimeAccessToken (apiUser apiPassword : string) :
  guarded (getWattTimeAccessToken host apiUser apiPassword).
Proof.
  intros w. split.
  - now rewrite getWattTimeAccessToken_events.
  - rewrite getWattTimeAccessToken_events. discriminate.
Qed.

Lemma guarded_getGeolocation (location locationType : string) :
  guarded (getGeolocation host location locationType).
Proof.
  intros w. split.
  - now rewrite getGeolocation_events.
  - rewrite getGeolocation_events. discriminate.
Qed.

Lemma getGeolocation_no_panic
    (location locationType : string) (w : World host) (msg : string) :
  result (getGeolocation host location locationType w) <> Panic msg.
Proof.
  client_cases; try discriminate.
  match goal with
  | H : index ?l 0 = Panic _, E : (length ?l =? 1)%nat = true |- _ =>
      destruct l; discriminate
  end.
Qed.

(** *** When each client returns a value, and when an error *)

(** X3.  The zone lookup returns a value in two cases only: the empty
    string on a 404, and the [zone] field on a 200 whose body was read and
    decoded.  In particular a body that cannot be read or decoded is never
    turned into a value. *)
Theorem zone_lookup_returns
    (apiKey : string) (latitude longitude : float) (out : HttpOutcome)
    (w w' : World host) (zone : string) :
  clientDo host (zoneRequest apiKey latitude longitude) w = (out, w') ->
  result (getElectricityMapsZone host apiKey latitude longitude w) = Ok zone
  <->
  (exists body, out = Response StatusNotFound body /\ zone = "")
  \/ (exists bytes resp,
        out = Response StatusOK (Done bytes)
        /\ unmarshalZone host bytes = Done resp
        /\ zone = Zone resp).
Proof.
  intros Hdo. unfold getElectricityMapsZone, bind, Do. rewrite Hdo. cbn.
  destruct out as [e | code body]; cbn.
  { split; [discriminate |].
    intros [(b & H & _) | (b & r & H & _)]; discriminate. }
  destruct (code =? StatusNotFound)%Z eqn:E404; cbn.
  { apply Z.eqb_eq in E404. subst code. split.
    - intros [= <-]. left. eauto.
    - intros [(b & _ & ->) | (b & r & H & _)]; [reflexivity | discriminate]. }
  apply Z.eqb_neq in E404.
  destruct (code =? StatusOK)%Z eqn:E200; cbn.
  - apply Z.eqb_eq in E200. subst code.
    destruct body as [bytes | e]; cbn.
    + destruct (unmarshalZone host bytes) as [resp | e] eqn:Hjson; cbn.
      * split.
        -- intros [= <-]. right. eauto.
        -- intros [(b & H & _) | (b & r & [= <-] & Hr & ->)];
             [discriminate | congruence].
      * split; [discriminate |].
        intros [(b & H & _) | (b & r & [= <-] & Hr & _)];
          [discriminate | congruence].
    + split; [discriminate |].
      intros [(b & H & _) | (b & r & H & _)]; discriminate.
  - apply Z.eqb_neq in E200. split; [discriminate |].
    intros [(b & [= H] & _) | (b & r & [= H] & _)]; contradiction.
Qed.

(** X4.  The region lookup returns an error in two cases only: a
    transport error, and a status other than 200 and 404.  Nothing in the
    body of a response makes it fail. *)
Theorem region_lookup_fails
    (accessToken : string) (latitude longitude : float) (out : HttpOutcome)
    (w w' : World host) (e : error) :
  clientDo host (regionRequest accessToken latitude longitude) w
    = (out, w') ->
  result (getWattTimeRegion host accessToken latitude longitude w) = Err e
  <->
  out = TransportError e
  \/ (exists code body,
        out = Response code body
        /\ code <> StatusOK /\ code <> StatusNotFound
        /\ e = unexpectedStatus code).
Proof.
  intros Hdo. unfold getWattTimeRegion, bind, Do. rewrite Hdo. cbn.
  destruct out as [e0 | code body]; cbn.
  { split.
    - intros [= <-]. now left.
    - intros [[= <-] | (c & b & H & _)]; [reflexivity | discriminate]. }
  destruct (code =? StatusNotFound)%Z eqn:E404; cbn.
  { apply Z.eqb_eq in E404. subst code. split; [discriminate |].
    intros [H | (c & b & [= <- <-] & _ & H & _)];
      [discriminate | contradiction]. }
  apply Z.eqb_neq in E404.
  destruct (code =? StatusOK)%Z eqn:E200; cbn.
  - apply Z.eqb_eq in E200. subst code.
    assert (Hno : forall r : Res string,
               (exists s, r = Ok s) ->
               r = Err e <->
               Response StatusOK body = TransportError e
               \/ (exists code body0,
                     Response StatusOK body = Response code body0
                     /\ code <> StatusOK /\ code <> StatusNotFound
                     /\ e = unexpectedStatus code)).
    { intros r [s ->]. split; [discriminate |].
      intros [H | (c & b & [= <- <-] & H & _)];
        [discriminate | contradiction]. }
    destruct body as [bytes | e0]; cbn; [| apply Hno; eauto].
    destruct (unmarshalRegion host bytes); cbn; apply Hno; eauto.
  - apply Z.eqb_neq in E200. split.
    + intros [= <-]. right. exists code, body. auto.
    + intros [H | (c & b & [= <- <-] & _ & _ & ->)];
        [discriminate | reflexivity].
Qed.

(** X21.  The login returns an error in two cases only: a transport
    error, and a status other than 200.  A body that cannot be read or
    decoded gives the empty token, not an error. *)
Theorem login_fails
    (apiUser apiPassword : string) (out : HttpOutcome)
    (w w' : World host) (e : error) :
  clientDo host (loginRequest apiUser apiPassword) w = (out, w') ->
  result (getWattTimeAccessToken host apiUser apiPassword w) = Err e
  <->
  out = TransportError e
  \/ (exists code body,
        out = Response code body
        /\ code <> StatusOK /\ e = unexpectedStatus code).
Proof.
  intros Hdo. unfold getWattTimeAccessToken, bind, Do. rewrite Hdo. cbn.
  destruct out as [e0 | code body]; cbn.
  { split.
    - intros [= <-]. now left.
    - intros [[= <-] | (c & b & H & _)]; [reflexivity | discriminate]. }
  destruct (code =? StatusOK)%Z eqn:E200; cbn.
  - apply Z.eqb_eq in E200. subst code.
    assert (Hno : forall r : Res string,
               (exists s, r = Ok s) ->
               r = Err e <->
               Response StatusOK body = TransportError e
               \/ (exists code body0,
                     Response StatusOK body = Response code body0
                     /\ code <> StatusOK /\ e = unexpectedStatus code)).
    { intros r [s ->]. split; [discriminate |].
      intros [H | (c & b & [= <- <-] & H & _)];
        [discriminate | contradiction]. }
    destruct body as [bytes | e0]; cbn; [| apply Hno; eauto].
    destruct (unmarshalLogin host bytes); cbn; apply Hno; eauto.
  - apply Z.eqb_neq in E200. split.
    + intros [= <-]. right. exists code, body. auto.
    + intros [H | (c & b & [= <- <-] & _ & ->)];
        [discriminate | reflexivity].
Qed.

(** X5.  The geocoder returns coordinates in two cases only, both after a
    200 whose body decodes to a list of candidates: the parsed [lat] and
    [lon] of the single candidate, or [(0, 0)] when the list has another
    length.  A 404 is an error here. *)
Theorem geolocation_returns
    (location locationType : string) (out : HttpOutcome)
    (w w' : World host) (coords : float * float) :
  clientDo host (geolocationRequest location locationType) w = (out, w') ->
  result (getGeolocation host location locationType w) = Ok coords
  <->
  exists bytes places,
    out = Response StatusOK (Done bytes)
    /\ unmarshalPlaces host bytes = Done places
    /\ ((length places <> 1 /\ coords = (0%float, 0%float))
        \/ (exists p,
              places = [p]
              /\ ParseFloat host (Lat p) = Done (fst coords)
              /\ ParseFloat host (Lon p) = Done (snd coords))).
Proof.
  intros Hdo. unfold getGeolocation, bind, Do. rewrite Hdo. cbn.
  destruct out as [e | code body]; cbn.
  { split; [discriminate | intros (b & ps & H & _); discriminate]. }
  destruct (code =? StatusOK)%Z eqn:E200; cbn.
  2: { apply Z.eqb_neq in E200. split; [discriminate |].
       intros (b & ps & [= H] & _). contradiction. }
  apply Z.eqb_eq in E200. subst code.
  destruct body as [bytes | e]; cbn.
  2: { split; [discriminate | intros (b & ps & H & _); discriminate]. }
  destruct (unmarshalPlaces host bytes) as [places | e] eqn:Hjson; cbn.
  2: { split; [discriminate |].
       intros (b & ps & [= <-] & H & _). congruence. }
  destruct places as [| p [| q places]]; cbn.
  - split.
    + intros [= <-]. exists bytes, []. repeat split; auto.
    + intros (b & ps & [= <-] & H & [[_ ->] | (p & Hp & _)]);
        [reflexivity | congruence].
  - destruct (ParseFloat host (Lat p)) as [la | e] eqn:Hla; cbn.
    + destruct (ParseFloat host (Lon p)) as [lo | e] eqn:Hlo; cbn.
      * split.
        -- intros [= <-]. exists bytes, [p]. repeat split; auto.
           right. exists p. auto.
        -- intros (b & ps & [= <-] & H & [[Hlen _] | (p' & Hp & Ha & Ho)]).
           ++ rewrite Hjson in H. injection H as <-. now destruct Hlen.
           ++ rewrite Hjson in H. injection H as <-. injection Hp as <-.
              rewrite Hla in Ha. rewrite Hlo in Ho.
              injection Ha as Ha. injection Ho as Ho.
              destruct coords. cbn in *. now subst.
      * split; [discriminate |].
        intros (b & ps & [= <-] & H & [[Hlen _] | (p' & Hp & Ha & Ho)]).
        -- rewrite Hjson in H. injection H as <-. now destruct Hlen.
        -- rewrite Hjson in H. injection H as <-. injection Hp as <-.
           congruence.
    + split; [discriminate |].
      intros (b & ps & [= <-] & H & [[Hlen _] | (p' & Hp & Ha & Ho)]).
      * rewrite Hjson in H. injection H as <-. now destruct Hlen.
      * rewrite Hjson in H. injection H as <-. injection Hp as <-.
        congruence.
  - split.
    + intros [= <-]. exists bytes, (p :: q :: places).
      repeat split; auto. left. split; [cbn; lia | reflexivity].
    + intros (b & ps & [= <-] & H & [[_ ->] | (p' & Hp & _)]);
        [reflexivity | congruence].
Qed.

End Clients.

(** ** Loading and enriching *)

Section Pipeline.

Variable host : Host.
Variable proc : Process.

Ltac guarding :=
  repeat first
    [ apply guarded_ret
    | apply guarded_fail
    | apply guarded_lift
    | apply guarded_Sleep
    | apply guarded_getGeolocation
    | apply guarded_getElectricityMapsZone
    | apply guarded_getWattTimeRegion
    | apply guarded_getWattTimeAccessToken
    | apply guarded_bind; [| intros ?]
    | match goal with
      | |- guarded (if ?b then _ else _) => destruct b
      | |- guarded (match ?x with _ => _ end) => destruct x
      end ].

Lemma guarded_OpenFile (fileName : string) :
  guarded (OpenFile host proc fileName).
Proof.
  intros w. unfold OpenFile.
  destruct (Open proc fileName); cbn; split;
    solve [reflexivity | discriminate].
Qed.

Lemma guarded_loadRecord (record : list string) :
  guarded (loadRecord host record).
Proof. unfold loadRecord. guarding. Qed.

Lemma guarded_loadLoop (input : list csv.Line) :
  forall n regions, guarded (loadLoop host n input regions).
Proof.
  induction input as [| l rest IH]; intros n regions; cbn [loadLoop].
  - guarding.
  - destruct (csv.readRecord n l) as [[record [e |]] n'].
    + destruct (error_identical e ErrFieldCount); [apply IH | guarding].
    + apply guarded_bind; [apply guarded_loadRecord | intros r; apply IH].
Qed.

Lemma guarded_loadRegions (fileName : string) :
  guarded (loadRegions host proc fileName).
Proof.
  unfold loadRegions. apply guarded_bind; [apply guarded_OpenFile |].
  intros file. destruct (csv.Read (csv.NewReader file)) as [[record [e |]] r].
  - guarding.
  - apply guarded_loadLoop.
Qed.

Lemma guarded_enrichRegion (key token : string) (region : Region) :
  guarded (enrichRegion host key token region).
Proof. unfold enrichRegion. guarding. Qed.

Lemma guarded_enrich (key token : string) (regions : list Region) :
  guarded (enrich host key token regions).
Proof.
  induction regions as [| r rest IH]; cbn [enrich]; [guarding |].
  apply guarded_bind; [apply guarded_enrichRegion | intros r'].
  apply guarded_bind; [apply IH | intros rest']. guarding.
Qed.

(** *** The loop body of the enrichment pass *)

Ltac lookups :=
  repeat match goal with
    | |- context [getElectricityMapsZone ?h ?k ?a ?b ?w] =>
        destruct (getElectricityMapsZone h k a b w)
          as [[[?zone | ?e | ?msg] ?w1] ?t1] eqn:?; cbn
    | |- context [getWattTimeRegion ?h ?k ?a ?b ?w] =>
        destruct (getWattTimeRegion h k a b w)
          as [[[?regionID | ?e | ?msg] ?w1] ?t1] eqn:?; cbn
    end.



Lemma enrichRegion_populated (key token : string) (r : Region)
    (w : World host) :
  ElectricityMapsZone r <> "" -> WattTimeRegion r <> "" ->
  enrichRegion host key token r w = (Ok r, w, [EvSleep 1]).
Proof.
  intros Hz Hr. apply String.eqb_neq in Hz, Hr.
  unfold enrichRegion. now rewrite Hz, bind_ret_l, Hr, bind_ret_l.
Qed.

Lemma enrichRegion_keeps (key token : string) (r r' : Region)
    (w : World host) :
  result (enrichRegion host key token r w) = Ok r' -> keepsPopulated r r'.
Proof.
  unfold enrichRegion, bind, keepsPopulated.
  destruct (ElectricityMapsZone r =? "") eqn:Hz; cbn; lookups;
    try discriminate;
    destruct (WattTimeRegion r =? "") eqn:Hr; cbn; lookups;
    try discriminate;
    intros [= <-]; cbn; repeat split; try reflexivity;
    intros H; apply String.eqb_neq in H; congruence.
Qed.





(** *** The enrichment pass *)

Lemma enrich_cons (key token : string) (r : Region) (rest : list Region)
    (w : World host) :
  enrich host key token (r :: rest) w
  = match enrichRegion host key token r w with
    | (Ok r', w1, t1) =>
        (consRes r' (result (enrich host key token rest w1)),
         world (enrich host key token rest w1),
         (t1 ++ events (enrich host key token rest w1))%list)
    | (Err e, w1, t1) => (Err e, w1, t1)
    | (Panic msg, w1, t1) => (Panic msg, w1, t1)
    end.
Proof.
  cbn [enrich]. unfold bind.
  destruct (enrichRegion host key token r w) as [[[r' | e | msg] w1] t1];
    try reflexivity.
  destruct (enrich host key token rest w1) as [[[rs | e | msg] w2] t2];
    cbn; now rewrite ?app_nil_r.
Qed.

Lemma enrich_populated (key token : string) (regions : list Region)
    (w : World host) :
  Forall (fun r => ElectricityMapsZone r <> "" /\ WattTimeRegion r <> "")
         regions ->
  enrich host key token regions w
  = (Ok regions, w, repeat (EvSleep 1) (length regions)).
Proof.
  induction 1 as [| r rest [Hz Hr] _ IH]; [reflexivity |].
  rewrite enrich_cons, (enrichRegion_populated _ _ _ _ Hz Hr), IH.
  reflexivity.
Qed.

Lemma enrich_keeps (key token : string) (regions : list Region) :
  forall (w : World host) (regions' : list Region),
    result (enrich host key token regions w) = Ok regions' ->
    Forall2 keepsPopulated regions regions'.
Proof.
  induction regions as [| r rest IH]; intros w regions'.
  - intros [= <-]. constructor.
  - rewrite enrich_cons.
    pose proof (fun r' => enrichRegion_keeps key token r r' w) as Hr.
    destruct (enrichRegion host key token r w) as [[[r' | e | msg] w1] t1];
      try discriminate.
    specialize (IH w1). cbn.
    destruct (result (enrich host key token rest w1)) as [rs | e | msg];
      try discriminate.
    intros [= <-]. constructor; [now apply Hr | now apply IH].
Qed.




(** C3.  A record whose zone (region) is already filled in gets no zone
    (region) lookup in the enrichment pass and keeps its value; and a
    pass over records that are all filled in performs no request at all:
    it only sleeps once a record and returns the records as they were. *)
Theorem populated_fields_are_left_alone (key token : string) :
  (forall r w,
      ElectricityMapsZone r <> "" ->
      existsb isZoneLookup (events (enrichRegion host key token r w))
      = false)
  /\ (forall r w,
        WattTimeRegion r <> "" ->
        existsb isRegionLookup (events (enrichRegion host key token r w))
        = false)
  /\ (forall regions w regions',
        result (enrich host key token regions w) = Ok regions' ->
        Forall2 keepsPopulated regions regions')
  /\ (forall regions w,
        Forall (fun r => ElectricityMapsZone r <> "" /\
                         WattTimeRegion r <> "") regions ->
        enrich host key token regions w
        = (Ok regions, w, repeat (EvSleep 1) (length regions))).
Proof.
  repeat split.
  - intros r w Hz. apply String.eqb_neq in Hz.
    unfold enrichRegion. rewrite Hz.
    apply silent_bind; [apply silent_ret | intros r1].
    apply silent_bind; [| intros r2].
    + destruct (WattTimeRegion r1 =? ""); [| apply silent_ret].
      apply silent_bind; [| intros; apply silent_ret].
      now apply silent_getWattTimeRegion.
    + apply silent_bind; [now apply silent_Sleep | intros; apply silent_ret].
  - intros r w Hr. apply String.eqb_neq in Hr.
    unfold enrichRegion, bind.
    destruct (ElectricityMapsZone r =? ""); cbn.
    + pose proof (silent_getElectricityMapsZone host isRegionLookup key
                    (Latitude r) (Longitude r) (fun _ => eq_refl) w) as Hs.
      lookups; cbn in Hs; rewrite ?Hr; cbn;
        rewrite ?existsb_app, ?Hs; reflexivity.
    + now rewrite Hr.
  - intros regions w regions'. apply enrich_keeps.
  - intros regions w. apply enrich_populated.
Qed.

(** *** Loading *)

Lemma loadLoop_record_error (n : Z) (l : csv.Line) (rest : list csv.Line)
    (regions : list Region) (record : list string) (n' : Z)
    (w w1 : World host) (e : error) (t1 : list Event) :
  csv.readRecord n l = (record, None, n') ->
  loadRecord host record w = (Err e, w1, t1) ->
  loadLoop host n (l :: rest) regions w = (Err e, w1, t1).
Proof.
  intros Hread Hload. cbn [loadLoop]. rewrite Hread.
  now apply bind_Err.
Qed.

(** C2.  A row whose number of fields differs from the expected number
    is not skipped: the reader reports it with a [*ParseError], which is
    not identical to [csv.ErrFieldCount], so the loop breaks and returns
    the regions loaded so far, whatever rows follow. *)
Theorem wrong_field_count_stops_loading
    (n line : Z) (fields : list string) (rest : list csv.Line)
    (regions : list Region) (w : World host) :
  (0 < n)%Z ->
  Z.of_nat (length fields) <> n ->
  loadLoop host n (csv.Fields line fields :: rest) regions w
  = (Ok regions, w, []).
Proof.
  intros Hpos Hlen. cbn [loadLoop csv.readRecord].
  apply Z.ltb_lt in Hpos. apply Z.eqb_neq in Hlen.
  now rewrite Hpos, Hlen.
Qed.

(** Whatever the rows before it, what follows a row of the wrong length
    has no effect on the result of the loop. *)
Lemma rows_after_a_short_row_are_ignored
    (n line : Z) (fields : list string) (before rest : list csv.Line) :
  (0 < n)%Z ->
  Z.of_nat (length fields) <> n ->
  forall (regions : list Region) (w : World host),
    loadLoop host n (before ++ csv.Fields line fields :: rest) regions w
    = loadLoop host n (before ++ [csv.Fields line fields]) regions w.
Proof.
  intros Hpos Hlen.
  assert (Hstop : forall rest' n' regions w,
             n' = n ->
             loadLoop host n' (csv.Fields line fields :: rest') regions w
             = (Ok regions, w, [])).
  { intros rest' n' regions w ->. cbn [loadLoop csv.readRecord].
    apply Z.ltb_lt in Hpos. apply Z.eqb_neq in Hlen.
    now rewrite Hpos, Hlen. }
  assert (Hn : forall l, snd (csv.readRecord n l) = n).
  { intros [ln fs | e]; cbn; [| reflexivity].
    apply Z.ltb_lt in Hpos. rewrite Hpos.
    now destruct (negb (Z.of_nat (length fs) =? n)%Z). }
  induction before as [| l before IH]; intros regions w.
  - cbn [app]. now rewrite !Hstop.
  - cbn [app loadLoop]. specialize (Hn l).
    destruct (csv.readRecord n l) as [[record [e |]] n']; cbn in Hn; subst n'.
    + destruct (error_identical e ErrFieldCount); [apply IH | reflexivity].
    + apply bind_ext. intros r w1. apply IH.
Qed.

(** C8.  Without [ELECTRICITY_MAPS_API_KEY] the run ends at once, before
    any event, with an error whose message is built from the empty value
    of the variable and does not contain its name. *)
Theorem missing_api_key_is_not_named (w : World host) :
  Getenv proc electricityMapsAPIKeyEnvVar = "" ->
  mainWithError host proc w
  = (Err (ErrorString " env var must be set"), w, [])
  /\ strings.Contains " env var must be set" electricityMapsAPIKeyEnvVar
     = false.
Proof.
  intros H. split; [| reflexivity].
  unfold mainWithError. now rewrite H.
Qed.

(** The two WattTime variables are named when they are missing. *)
Lemma missing_user_is_named (w : World host) :
  Getenv proc electricityMapsAPIKeyEnvVar <> "" ->
  Getenv proc wattTimeUserEnvVar = "" ->
  mainWithError host proc w
  = (Err (ErrorString "WATT_TIME_USER env var must be set"), w, []).
Proof.
  intros Hk Hu. apply String.eqb_neq in Hk.
  unfold mainWithError. now rewrite Hk, Hu.
Qed.

Lemma missing_password_is_named (w : World host) :
  Getenv proc electricityMapsAPIKeyEnvVar <> "" ->
  Getenv proc wattTimeUserEnvVar <> "" ->
  Getenv proc wattTimePasswordEnvVar = "" ->
  mainWithError host proc w
  = (Err (ErrorString "WATT_TIME_PASSWORD env var must be set"), w, []).
Proof.
  intros Hk Hu Hp. apply String.eqb_neq in Hk, Hu.
  unfold mainWithError. now rewrite Hk, Hu, Hp.
Qed.

(** *** Feeding the output back in *)

(** Reading back a written row never geocodes: both coordinate fields
    are non-empty. *)
Lemma reload_makes_no_request (r : Region) (w : World host) :
  world (loadRecord host (recordOf r) w) = w
  /\ events (loadRecord host (recordOf r) w) = [].
Proof.
  unfold recordOf.
  destruct (fmt.f (Latitude r)) as [| c6 s6] eqn:E6;
    [now destruct (fmt_f_nonempty _ E6) |].
  destruct (fmt.f (Longitude r)) as [| c7 s7] eqn:E7;
    [now destruct (fmt_f_nonempty _ E7) |].
  unfold loadRecord, bind. cbn.
  destruct (ParseFloat host (String c6 s6)); cbn; [| now split].
  destruct (ParseFloat host (String c7 s7)); cbn; now split.
Qed.

Lemma reload_written_row (r : Region) (latitude longitude : float)
    (w : World host) :
  ParseFloat host (fmt.f (Latitude r)) = Done latitude ->
  ParseFloat host (fmt.f (Longitude r)) = Done longitude ->
  loadRecord host (recordOf r) w
  = (Ok {| CloudProvider := CloudProvider r;
           CloudRegion := CloudRegion r;
           Location := Location r;
           LocationOverride := LocationOverride r;
           LocationSource := LocationSource r;
           LocationType := LocationType r;
           Latitude := latitude;
           Longitude := longitude;
           ElectricityMapsZone := ElectricityMapsZone r;
           WattTimeRegion := WattTimeRegion r |}, w, []).
Proof.
  unfold recordOf.
  destruct (fmt.f (Latitude r)) as [| c6 s6] eqn:E6;
    [now destruct (fmt_f_nonempty _ E6) |].
  destruct (fmt.f (Longitude r)) as [| c7 s7] eqn:E7;
    [now destruct (fmt_f_nonempty _ E7) |].
  intros P6 P7. unfold loadRecord, bind. cbn.
  rewrite P6. cbn. now rewrite P7.
Qed.




(** *** An error while loading ends the run *)

Lemma load_error_aborts_the_run
    (w w1 w2 : World host) (token fileName : string) (e : error)
    (t1 t2 : list Event) :
  Getenv proc electricityMapsAPIKeyEnvVar <> "" ->
  Getenv proc wattTimeUserEnvVar <> "" ->
  Getenv proc wattTimePasswordEnvVar <> "" ->
  getWattTimeAccessToken host (Getenv proc wattTimeUserEnvVar)
    (Getenv proc wattTimePasswordEnvVar) w = (Ok token, w1, t1) ->
  index (Args proc) 1 = Ok fileName ->
  loadRegions host proc fileName w1 = (Err e, w2, t2) ->
  mainWithError host proc w = (Err e, w2, (t1 ++ t2)%list)
  /\ existsb isOutput (t1 ++ t2) = false.
Proof.
  intros Hk Hu Hp Hlogin Hargs Hload.
  apply String.eqb_neq in Hk, Hu, Hp.
  split.
  - unfold mainWithError. rewrite Hk, Hu, Hp.
    rewrite (bind_Ok _ _ _ _ _ _ _ Hlogin), Hargs.
    unfold lift at 1. unfold bind at 1. cbn.
    rewrite (bind_Err _ _ _ _ _ _ _ Hload). reflexivity.
  - destruct (guarded_getWattTimeAccessToken host
                (Getenv proc wattTimeUserEnvVar)
                (Getenv proc wattTimePasswordEnvVar) w) as [H1 _].
    destruct (guarded_loadRegions fileName w1) as [H2 _].
    rewrite Hlogin in H1. rewrite Hload in H2. cbn in H1, H2.
    now rewrite existsb_app, H1, H2.
Qed.

Lemma silent_writeRegions (P : Event -> bool) (regions : list Region) :
  (forall record, P (EvWrite record) = false) ->
  silent P (writeRegions host regions).
Proof.
  intros H. induction regions as [| r rest IH]; cbn [writeRegions].
  - apply silent_ret.
  - apply silent_bind; [apply silent_Write, H |].
    intros [e |]; [apply silent_fail | apply IH].
Qed.

(** The writing phase performs no lookup. *)
Lemma silent_emit (regions : list Region) :
  silent failedLookup
    (bind (Write host header) (fun err =>
       match err with
       | Some e => fail e
       | None =>
           bind (writeRegions host regions) (fun _ =>
             bind (Flush host) (fun err =>
               match err with
               | Some e => fail e
               | None => ret tt
               end))
       end)).
Proof.
  apply silent_bind; [now apply silent_Write |].
  intros [e |]; [apply silent_fail |].
  apply silent_bind; [now apply silent_writeRegions |]. intros _.
  apply silent_bind; [now apply silent_Flush |].
  intros [e |]; [apply silent_fail | apply silent_ret].
Qed.

Lemma abortsCleanly_mainWithError : abortsCleanly (mainWithError host proc).
Proof.
  unfold mainWithError.
  destruct (Getenv proc electricityMapsAPIKeyEnvVar =? "");
    [apply abortsCleanly_silent, silent_fail |].
  destruct (Getenv proc wattTimeUserEnvVar =? "");
    [apply abortsCleanly_silent, silent_fail |].
  destruct (Getenv proc wattTimePasswordEnvVar =? "");
    [apply abortsCleanly_silent, silent_fail |].
  apply abortsCleanly_bind; [apply guarded_getWattTimeAccessToken |].
  intros token.
  apply abortsCleanly_bind; [apply guarded_lift |]. intros fileName.
  apply abortsCleanly_bind; [apply guarded_loadRegions |]. intros regions.
  apply abortsCleanly_bind; [apply guarded_enrich |]. intros regions'.
  apply abortsCleanly_silent, silent_emit.
Qed.

(** C5.  A zone or region lookup that receives a status other than 200
    and 404 returns an error; and a run in which this happened to some
    lookup ends with an error and has written neither the header nor any
    row. *)
Theorem failed_lookup_aborts_the_run :
  (forall key latitude longitude code body w w',
      code <> StatusOK -> code <> StatusNotFound ->
      clientDo host (zoneRequest key latitude longitude) w
        = (Response code body, w') ->
      result (getElectricityMapsZone host key latitude longitude w)
      = Err (unexpectedStatus code))
  /\ (forall token latitude longitude code body w w',
        code <> StatusOK -> code <> StatusNotFound ->
        clientDo host (regionRequest token latitude longitude) w
          = (Response code body, w') ->
        result (getWattTimeRegion host token latitude longitude w)
        = Err (unexpectedStatus code))
  /\ (forall w,
        existsb failedLookup (events (mainWithError host proc w)) = true ->
        (exists e, result (mainWithError host proc w) = Err e) /\
        existsb isOutput (events (mainWithError host proc w)) = false).
Proof.
  split; [| split].
  - intros key la lo code body w w' Hok Hnf H.
    now rewrite (zone_unexpected_status host key la lo code body w w').
  - intros token la lo code body w w' Hok Hnf H.
    now rewrite (region_unexpected_status host token la lo code body w w').
  - exact abortsCleanly_mainWithError.
Qed.

(** *** The start of a run *)

(** X6.  With the three variables set, a login that fails in transport
    or is answered with any status other than 200 (a 404 included) ends
    the run with that error; the login request is the only event, and the
    input file is not opened. *)
Theorem login_failure_ends_the_run (out : HttpOutcome) (w w' : World host) :
  Getenv proc electricityMapsAPIKeyEnvVar <> "" ->
  Getenv proc wattTimeUserEnvVar <> "" ->
  Getenv proc wattTimePasswordEnvVar <> "" ->
  let login := loginRequest (Getenv proc wattTimeUserEnvVar)
                 (Getenv proc wattTimePasswordEnvVar) in
  clientDo host login w = (out, w') ->
  (forall e,
      out = TransportError e ->
      mainWithError host proc w = (Err e, w', [EvHTTP login out]))
  /\ (forall code body,
        out = Response code body -> code <> StatusOK ->
        mainWithError host proc w
        = (Err (unexpectedStatus code), w', [EvHTTP login out])).
Proof.
  intros Hk Hu Hp login Hdo. apply String.eqb_neq in Hk, Hu, Hp.
  split.
  - intros e ->. unfold mainWithError. rewrite Hk, Hu, Hp.
    apply bind_Err. unfold getWattTimeAccessToken, bind, Do.
    fold login. now rewrite Hdo.
  - intros code body -> Hcode. apply Z.eqb_neq in Hcode.
    unfold mainWithError. rewrite Hk, Hu, Hp.
    apply bind_Err. unfold getWattTimeAccessToken, bind, Do.
    fold login. rewrite Hdo. cbn. now rewrite Hcode.
Qed.

(** X7.  When the three variables are set and the login returns a
    token, a run started without a file name on the command line panics
    on [os.Args[1]]; its only event is the login request, made before. *)
Theorem missing_argument_panics
    (w w1 : World host) (token : string) (t1 : list Event) :
  Getenv proc electricityMapsAPIKeyEnvVar <> "" ->
  Getenv proc wattTimeUserEnvVar <> "" ->
  Getenv proc wattTimePasswordEnvVar <> "" ->
  getWattTimeAccessToken host (Getenv proc wattTimeUserEnvVar)
    (Getenv proc wattTimePasswordEnvVar) w = (Ok token, w1, t1) ->
  length (Args proc) < 2 ->
  mainWithError host proc w = (Panic "index out of range", w1, t1).
Proof.
  intros Hk Hu Hp Hlogin Hargs. apply String.eqb_neq in Hk, Hu, Hp.
  unfold mainWithError. rewrite Hk, Hu, Hp.
  rewrite (bind_Ok _ _ _ _ _ _ _ Hlogin).
  assert (Hidx : index (Args proc) 1 = Panic "index out of range").
  { unfold index. now rewrite (proj2 (nth_error_None (Args proc) 1)) by lia. }
  rewrite Hidx. cbn. now rewrite app_nil_r.
Qed.

(** *** Loading *)

(** X8.  [loadRegions] on its edge inputs: a file that cannot be opened
    gives the error of [os.Open]; an empty file gives [io.EOF], which the
    header read returns; a file with a header only gives no region and no
    error.  In all three the only event is the opening of the file. *)
Theorem loadRegions_edge_inputs (fileName : string) (w : World host) :
  (forall e,
      Open proc fileName = Failed e ->
      loadRegions host proc fileName w = (Err e, w, [EvOpen fileName]))
  /\ (Open proc fileName = Done [] ->
      loadRegions host proc fileName w = (Err EOF, w, [EvOpen fileName]))
  /\ (forall line fields,
        Open proc fileName = Done [csv.Fields line fields] ->
        loadRegions host proc fileName w = (Ok [], w, [EvOpen fileName])).
Proof.
  repeat split.
  - intros e H. unfold loadRegions, bind, OpenFile. now rewrite H.
  - intros H. unfold loadRegions, bind, OpenFile. now rewrite H.
  - intros line fields H. unfold loadRegions, bind, OpenFile. now rewrite H.
Qed.

(** X9.  For a row of ten fields with an empty latitude or longitude,
    loading makes one geocoding request, whose query is the location
    override when there is one, else the location itself, passed through
    [parseAWSLocation] for an AWS row; the parameter name is the location
    type.  The coordinates of the region are the answer, and the other
    fields come from the row.  An AWS location on which
    [parseAWSLocation] panics makes loading panic before any request. *)
Theorem missing_coordinates_are_geocoded
    (f0 f1 f2 f3 f4 f5 f6 f7 f8 f9 : string) (w : World host) :
  f6 = "" \/ f7 = "" ->
  let record := [f0; f1; f2; f3; f4; f5; f6; f7; f8; f9] in
  (forall location,
      (f3 <> "" /\ location = f3)
      \/ (f3 = "" /\ f0 <> awsCloudProvider /\ location = f2)
      \/ (f3 = "" /\ f0 = awsCloudProvider
          /\ parseAWSLocation f2 = Ok location) ->
      loadRecord host record w
      = (mapRes (regionOfFields f0 f1 f2 f3 f4 f5 f8 f9)
           (result (getGeolocation host location f5 w)),
         world (getGeolocation host location f5 w),
         events (getGeolocation host location f5 w)))
  /\ (forall msg,
        f3 = "" -> f0 = awsCloudProvider ->
        parseAWSLocation f2 = Panic msg ->
        loadRecord host record w = (Panic msg, w, [])).
Proof.
  intros Hempty record.
  assert (Hrun : forall location (c : World host -> _),
    c = getGeolocation host location f5 ->
    (let '(r, w2, t2) :=
       match c w with
       | (Ok a, w1, t1) =>
           (Ok (regionOfFields f0 f1 f2 f3 f4 f5 f8 f9 a), w1,
            (t1 ++ [])%list)
       | (Err e, w1, t1) => (Err e, w1, t1)
       | (Panic msg, w1, t1) => (Panic msg, w1, t1)
       end in (r, w2, t2))
    = (mapRes (regionOfFields f0 f1 f2 f3 f4 f5 f8 f9)
         (result (getGeolocation host location f5 w)),
       world (getGeolocation host location f5 w),
       events (getGeolocation host location f5 w))).
  { intros location c ->.
    destruct (getGeolocation host location f5 w) as [[[c | e | m] w1] t1];
      cbn; now rewrite ?app_nil_r. }
  revert record.
  destruct Hempty as [-> | ->]; [| destruct f6 as [| c6 s6]];
    intros record; subst record.
  all: split;
    [ intros location
        [[H3 ->] | [(-> & H0 & ->) | (-> & -> & Haws)]]
    | intros msg -> -> Haws ].
  all: try (assert (N3 : nonEmpty f3 = true)
              by (unfold nonEmpty; apply String.eqb_neq in H3;
                  now rewrite H3);
            apply String.eqb_neq in H3).
  all: try apply String.eqb_neq in H0.
  all: unfold loadRecord, bind; cbn;
    rewrite ?N3, ?H3, ?H0; cbn; rewrite ?Haws; cbn; try reflexivity.
  all: match goal with
       | |- _ = (mapRes _ (result (getGeolocation _ ?loc _ _)), _, _) =>
           rewrite <- (Hrun loc _ eq_refl);
           now destruct (getGeolocation host loc f5 w)
             as [[[c | e | m] w1] t1]
       end.
Qed.

(** *** What the enrichment pass asks, and how often *)

Lemma enrichRegion_events (key token : string) (r : Region)
    (w : World host) :
  Forall (enrichmentEvent key token r)
    (events (enrichRegion host key token r w)).
Proof.
  assert (Hsleep : enrichmentEvent key token r (EvSleep 1)) by now left.
  assert (Hzev : ElectricityMapsZone r = "" -> forall out,
    enrichmentEvent key token r
      (EvHTTP (zoneRequest key (Latitude r) (Longitude r)) out)).
  { intros Hz out. right. left. eauto. }
  assert (Hrev : WattTimeRegion r = "" -> forall out,
    enrichmentEvent key token r
      (EvHTTP (regionRequest token (Latitude r) (Longitude r)) out)).
  { intros Hr out. right. right. eauto. }
  assert (Hregion : forall w1,
    WattTimeRegion r = "" ->
    Forall (enrichmentEvent key token r)
      (events (getWattTimeRegion host token (Latitude r) (Longitude r) w1))).
  { intros w1 Hr. rewrite getWattTimeRegion_events.
    repeat apply Forall_cons; auto. }
  unfold enrichRegion, bind.
  destruct (ElectricityMapsZone r =? "") eqn:Hz; cbn.
  - apply String.eqb_eq in Hz.
    pose proof (getElectricityMapsZone_events host key (Latitude r)
                  (Longitude r) w) as Hzone.
    lookups; cbn in Hzone; subst t1; cbn;
      try (repeat apply Forall_cons; now auto).
    destruct (WattTimeRegion r =? "") eqn:Hr; cbn;
      [| repeat apply Forall_cons; now auto].
    apply String.eqb_eq in Hr. specialize (Hregion w1 Hr).
    lookups; cbn in Hregion; cbn; (apply Forall_cons; [now auto |]);
      rewrite ?app_nil_r; try exact Hregion.
    apply Forall_app. split; [exact Hregion |].
    repeat apply Forall_cons; now auto.
  - destruct (WattTimeRegion r =? "") eqn:Hr; cbn;
      [| repeat apply Forall_cons; now auto].
    apply String.eqb_eq in Hr. specialize (Hregion w Hr).
    lookups; cbn in Hregion; cbn; rewrite ?app_nil_r; try exact Hregion.
    apply Forall_app. split; [exact Hregion |].
    repeat apply Forall_cons; now auto.
Qed.

(** X10.  Everything the enrichment pass does is, for some region of the
    list, the one-second sleep or a lookup of a field of that region that
    is empty, made at the coordinates of that region with the given key or
    token.  The pass never geocodes, never logs in, never writes and never
    looks up a field that is filled in. *)
Theorem enrich_only_looks_up_empty_fields
    (key token : string) (regions : list Region) :
  forall w : World host,
    Forall
      (fun ev => exists r, In r regions /\ enrichmentEvent key token r ev)
      (events (enrich host key token regions w)).
Proof.
  induction regions as [| r rest IH]; intros w; [constructor |].
  rewrite enrich_cons.
  pose proof (enrichRegion_events key token r w) as Hr.
  assert (Hhere : Forall
    (fun ev => exists r0, In r0 (r :: rest) /\ enrichmentEvent key token r0 ev)
    (events (enrichRegion host key token r w))).
  { eapply Forall_impl; [| exact Hr].
    intros ev H. exists r. split; [now left | exact H]. }
  destruct (enrichRegion host key token r w) as [[[r' | e | m] w1] t1];
    cbn in *; try exact Hhere.
  apply Forall_app. split; [exact Hhere |].
  eapply Forall_impl; [| exact (IH w1)].
  intros ev (r0 & Hin & H). exists r0. split; [now right | exact H].
Qed.

Lemma enrichRegion_counts (key token : string) (r r' : Region)
    (w : World host) :
  result (enrichRegion host key token r w) = Ok r' ->
  length (filter isZoneLookup (events (enrichRegion host key token r w)))
  = (if emptyZone r then 1 else 0)
  /\ length (filter isRegionLookup
               (events (enrichRegion host key token r w)))
     = (if emptyRegion r then 1 else 0)
  /\ length (filter isSleep (events (enrichRegion host key token r w))) = 1.
Proof.
  unfold enrichRegion, bind, emptyZone, emptyRegion.
  destruct (ElectricityMapsZone r =? "") eqn:Hz; cbn.
  - pose proof (getElectricityMapsZone_events host key (Latitude r)
                  (Longitude r) w) as Hzone.
    lookups; cbn in Hzone; subst t1; try discriminate.
    destruct (WattTimeRegion r =? "") eqn:Hr; cbn; [| now intros _].
    match goal with
    | |- context [getWattTimeRegion ?h ?k ?a ?b ?w] =>
        pose proof (getWattTimeRegion_events h k a b w) as Hregion
    end.
    lookups; cbn in Hregion; subst; try discriminate. now intros _.
  - destruct (WattTimeRegion r =? "") eqn:Hr; cbn; [| now intros _].
    pose proof (getWattTimeRegion_events host token (Latitude r)
                  (Longitude r) w) as Hregion.
    lookups; cbn in Hregion; subst; try discriminate. now intros _.
Qed.

(** X11.  A pass that returns has made exactly one zone lookup for each
    region with an empty zone, one region lookup for each region with an
    empty region, and one sleep for each region of the list. *)
Theorem enrich_counts (key token : string) (regions : list Region) :
  forall (w : World host) (regions' : list Region),
    result (enrich host key token regions w) = Ok regions' ->
    length (filter isZoneLookup (events (enrich host key token regions w)))
    = length (filter emptyZone regions)
    /\ length (filter isRegionLookup
                 (events (enrich host key token regions w)))
       = length (filter emptyRegion regions)
    /\ length (filter isSleep (events (enrich host key token regions w)))
       = length regions.
Proof.
  induction regions as [| r rest IH]; intros w regions'; [now intros _ |].
  rewrite enrich_cons.
  pose proof (fun r' => enrichRegion_counts key token r r' w) as Hr.
  destruct (enrichRegion host key token r w) as [[[r' | e | m] w1] t1];
    cbn in *; try discriminate.
  destruct (Hr r' eq_refl) as (Hz & Hg & Hs).
  specialize (IH w1).
  destruct (result (enrich host key token rest w1)) as [rs | e | m];
    try discriminate.
  destruct (IH rs eq_refl) as (IHz & IHg & IHs).
  intros _. rewrite !filter_app, !length_app, Hz, Hg, Hs, IHz, IHg, IHs.
  repeat split.
  - now destruct (emptyZone r).
  - now destruct (emptyRegion r).
Qed.

(** *** What loading keeps of a row *)

Lemma loadRecord_Ok_fields (record : list string) (r : Region)
    (w : World host) :
  result (loadRecord host record w) = Ok r -> textFieldsOf record r.
Proof.
  destruct (loadRecord host record w) as [[res w'] evs] eqn:Hrun.
  cbn. intros ->. unfold loadRecord in Hrun.
  apply bind_Ok_inv in Hrun as (r6 & ? & ? & ? & _ & Hrun & _).
  apply bind_Ok_inv in Hrun as (both & ? & ? & ? & _ & Hrun & _).
  apply bind_Ok_inv in Hrun as (coords & ? & ? & ? & _ & Hrun & _).
  apply bind_Ok_inv in Hrun as (f0 & ? & ? & ? & H0 & Hrun & _).
  apply bind_Ok_inv in Hrun as (f1 & ? & ? & ? & H1 & Hrun & _).
  apply bind_Ok_inv in Hrun as (f2 & ? & ? & ? & H2 & Hrun & _).
  apply bind_Ok_inv in Hrun as (f3 & ? & ? & ? & H3 & Hrun & _).
  apply bind_Ok_inv in Hrun as (f4 & ? & ? & ? & H4 & Hrun & _).
  apply bind_Ok_inv in Hrun as (f5 & ? & ? & ? & H5 & Hrun & _).
  apply bind_Ok_inv in Hrun as (f8 & ? & ? & ? & H8 & Hrun & _).
  apply bind_Ok_inv in Hrun as (f9 & ? & ? & ? & H9 & Hrun & _).
  apply lift_index_Ok in H0 as [H0 _], H1 as [H1 _], H2 as [H2 _],
    H3 as [H3 _], H4 as [H4 _], H5 as [H5 _], H8 as [H8 _], H9 as [H9 _].
  injection Hrun as <- _ _. unfold textFieldsOf. cbn. auto 10.
Qed.

(** X12.  A record that was loaded has at least ten fields, and the
    eight text fields of the region are the fields of the record at
    their positions: loading changes none of them. *)
Theorem loaded_record_keeps_its_text (record : list string) (r : Region)
    (w : World host) :
  result (loadRecord host record w) = Ok r ->
  10 <= length record /\ textFieldsOf record r.
Proof.
  intros H. pose proof (loadRecord_Ok_fields record r w H) as Hf.
  split; [| exact Hf].
  destruct Hf as (_ & _ & _ & _ & _ & _ & _ & H9).
  assert (Hlt : nth_error record 9 <> None) by congruence.
  apply nth_error_Some in Hlt. lia.
Qed.

(** X13.  When no line of the input is corrupt, the regions that the
    loading loop adds come, one each and in order, from the first lines of
    the input: the loop keeps the order of the file and adds nothing of
    its own. *)
Theorem loadLoop_keeps_the_order (input : list csv.Line) :
  forallb isFields input = true ->
  forall (n : Z) (regions regions' : list Region) (w : World host),
    result (loadLoop host n input regions w) = Ok regions' ->
    exists added,
      regions' = (regions ++ added)%list
      /\ Forall2 loadedFrom (firstn (length added) input) added.
Proof.
  induction input as [| l rest IH]; intros Hin n regions regions' w.
  - cbn. intros [= <-]. exists []. now rewrite app_nil_r.
  - cbn in Hin. apply andb_true_iff in Hin as [Hl Hrest].
    destruct l as [line fields | e]; [| discriminate].
    cbn [loadLoop].
    destruct (csv.readRecord n (csv.Fields line fields))
      as [[record [e |]] n'] eqn:Hread.
    + assert (He : error_identical e ErrFieldCount = false).
      { cbn in Hread.
        destruct (0 <? n)%Z;
          [destruct (negb (Z.of_nat (length fields) =? n)%Z) |
           destruct (n =? 0)%Z];
          now inversion Hread. }
      rewrite He. cbn. intros [= <-]. exists []. now rewrite app_nil_r.
    + assert (Hrec : record = fields).
      { cbn in Hread.
        destruct (0 <? n)%Z;
          [destruct (negb (Z.of_nat (length fields) =? n)%Z) |
           destruct (n =? 0)%Z];
          now inversion Hread. }
      subst record.
      destruct (bind (loadRecord host fields)
                  (fun region => loadLoop host n' rest (regions ++ [region]))
                  w) as [[res w'] evs] eqn:Hrun.
      cbn. intros ->.
      apply bind_Ok_inv in Hrun as (r & w1 & t1 & t2 & Hload & Hloop & _).
      assert (Hres : result (loadLoop host n' rest (regions ++ [r]) w1)
                     = Ok regions') by now rewrite Hloop.
      destruct (IH Hrest _ _ _ _ Hres) as (added & -> & Hadded).
      exists (r :: added). split; [now rewrite <- app_assoc |].
      cbn. constructor; [| exact Hadded].
      cbn. apply (loadRecord_Ok_fields fields r w). now rewrite Hload.
Qed.

(** *** Reading back what was written *)

Lemma reload_loop (regions : list Region) (w : World host) :
  Forall (fun r =>
            exists latitude longitude,
              ParseFloat host (fmt.f (Latitude r)) = Done latitude /\
              ParseFloat host (fmt.f (Longitude r)) = Done longitude)
         regions ->
  forall (line : Z) (loaded : list Region),
    exists regions',
      loadLoop host 10 (asInputFrom line (map recordOf regions)) loaded w
      = (Ok (loaded ++ regions')%list, w, [])
      /\ Forall2 (fun r r' => textFieldsOf (recordOf r) r') regions regions'.
Proof.
  induction 1 as [| r rest (la & lo & P6 & P7) _ IH]; intros line loaded.
  - exists []. cbn. rewrite app_nil_r. split; [reflexivity | constructor].
  - cbn [map asInputFrom loadLoop]. cbn [csv.readRecord recordOf length].
    cbn [Z.of_nat Pos.of_succ_nat Pos.succ Z.ltb Z.eqb Z.compare Pos.compare
         Pos.compare_cont Pos.eqb negb].
    rewrite (bind_Ok _ _ _ _ _ _ _ (reload_written_row r la lo w P6 P7)).
    match goal with
    | |- context [loadLoop host 10 _ (loaded ++ [?r'])%list w] =>
        destruct (IH (line + 1)%Z (loaded ++ [r'])%list)
          as (regions' & Hloop & Hall);
        exists (r' :: regions')
    end.
    rewrite Hloop. cbn. rewrite <- app_assoc. split; [reflexivity |].
    constructor; [| exact Hall]. unfold textFieldsOf. cbn. auto 10.
Qed.

(** X14.  A file made of the header and of rows written by the program
    loads without any request: as long as the written coordinates parse,
    [loadRegions] returns one region for each row, with the text fields
    of the row, and its only event is the opening of the file. *)
Theorem written_file_loads_without_requests
    (regions : list Region) (fileName : string) (w : World host) :
  Open proc fileName = Done (asInput (header :: map recordOf regions)) ->
  Forall (fun r =>
            exists latitude longitude,
              ParseFloat host (fmt.f (Latitude r)) = Done latitude /\
              ParseFloat host (fmt.f (Longitude r)) = Done longitude)
         regions ->
  exists regions',
    loadRegions host proc fileName w = (Ok regions', w, [EvOpen fileName])
    /\ Forall2 (fun r r' => textFieldsOf (recordOf r) r') regions regions'.
Proof.
  intros Hopen Hparse.
  destruct (reload_loop regions w Hparse 2 []) as (regions' & Hloop & Hall).
  exists regions'. split; [| exact Hall].
  unfold loadRegions, bind, OpenFile. rewrite Hopen.
  unfold asInput. cbn [asInputFrom csv.Read csv.NewReader csv.input
                         csv.FieldsPerRecord csv.readRecord].
  cbn [Z.ltb Z.eqb Z.compare header length Z.of_nat Pos.of_succ_nat Pos.succ
       Z.add Pos.add].
  change (loadLoop host _ _ [] w)
    with (loadLoop host 10 (asInputFrom 2 (map recordOf regions)) [] w).
  now rewrite Hloop.
Qed.

(** *** What a run writes *)

Lemma written_app (a b : list Event) :
  written (a ++ b) = (written a ++ written b)%list.
Proof.
  induction a as [| [] a IH]; cbn; rewrite ?IH; reflexivity.
Qed.

Lemma written_no_output (evs : list Event) :
  existsb isOutput evs = false -> written evs = [].
Proof.
  induction evs as [| [] evs IH]; cbn; auto; discriminate.
Qed.

Lemma guarded_written {A} (m : M host A) (w : World host) :
  guarded m -> written (events (m w)) = [].
Proof. intros H. apply written_no_output, (H w). Qed.

Lemma writeRegions_written (regions : list Region) :
  forall (w w' : World host) (evs : list Event),
    writeRegions host regions w = (Ok tt, w', evs) ->
    written evs = map recordOf regions.
Proof.
  induction regions as [| r rest IH]; intros w w' evs; cbn [writeRegions].
  - now intros [= _ <-].
  - intros H.
    apply bind_Ok_inv in H as (err & w1 & t1 & t2 & Hw & Hk & ->).
    unfold Write in Hw. destruct (stdoutWrite host (recordOf r) w).
    injection Hw as <- <- <-.
    destruct o as [e |]; [discriminate |].
    cbn. f_equal. exact (IH _ _ _ Hk).
Qed.

(** X15.  A run that returns without error has logged in first, and has
    written the header and then one row for each region that was loaded,
    in the order of loading: the rows are those of the regions after the
    enrichment pass, made with the token of the login, which has only
    filled in empty zones and regions. *)
Theorem successful_run_output (w w' : World host) (evs : list Event) :
  mainWithError host proc w = (Ok tt, w', evs) ->
  exists fileName token w1 loaded regions,
    getWattTimeAccessToken host (Getenv proc wattTimeUserEnvVar)
      (Getenv proc wattTimePasswordEnvVar) w
    = (Ok token, w1, firstn 1 evs)
    /\ index (Args proc) 1 = Ok fileName
    /\ result (loadRegions host proc fileName w1) = Ok loaded
    /\ result (enrich host (Getenv proc electricityMapsAPIKeyEnvVar)
                 token loaded (world (loadRegions host proc fileName w1)))
       = Ok regions
    /\ Forall2 keepsPopulated loaded regions
    /\ written evs = header :: map recordOf regions.
Proof.
  unfold mainWithError.
  destruct (Getenv proc electricityMapsAPIKeyEnvVar =? ""); [discriminate |].
  destruct (Getenv proc wattTimeUserEnvVar =? ""); [discriminate |].
  destruct (Getenv proc wattTimePasswordEnvVar =? ""); [discriminate |].
  intros H.
  apply bind_Ok_inv in H as (token & w1 & t1 & ? & Hlogin & H & ->).
  apply bind_Ok_inv in H as (fileName & ? & ? & ? & Hargs & H & ->).
  apply bind_Ok_inv in H as (loaded & w2 & t2 & ? & Hload & H & ->).
  apply bind_Ok_inv in H as (regions & w3 & t3 & ? & Henrich & H & ->).
  apply bind_Ok_inv in H as (err & w4 & t4 & ? & Hheader & H & ->).
  unfold Write in Hheader. destruct (stdoutWrite host header w3).
  injection Hheader as <- <- <-.
  destruct o as [e |]; [discriminate |].
  apply bind_Ok_inv in H as ([] & w5 & t5 & ? & Hrows & H & ->).
  apply bind_Ok_inv in H as (err & w6 & t6 & ? & Hflush & H & ->).
  unfold Flush in Hflush. destruct (stdoutFlush host w5).
  injection Hflush as <- <- <-.
  destruct o as [e |]; [discriminate |]. injection H as <- <-.
  unfold lift, index in Hargs.
  destruct (nth_error (Args proc) 1) as [name |] eqn:Hnth;
    [| discriminate].
  injection Hargs as <- <- <-.
  exists name, token, w1, loaded, regions.
  rewrite Hload. cbn. rewrite Henrich. cbn.
  repeat split.
  - rewrite Hlogin. f_equal.
    pose proof (getWattTimeAccessToken_events host
                  (Getenv proc wattTimeUserEnvVar)
                  (Getenv proc wattTimePasswordEnvVar) w) as Hev.
    rewrite Hlogin in Hev. cbn in Hev. now rewrite Hev.
  - unfold index. now rewrite Hnth.
  - apply (enrich_keeps (Getenv proc electricityMapsAPIKeyEnvVar) token
             loaded w2). now rewrite Henrich.
  - pose proof (guarded_written _ w
                  (guarded_getWattTimeAccessToken host
                     (Getenv proc wattTimeUserEnvVar)
                     (Getenv proc wattTimePasswordEnvVar))) as G1.
    pose proof (guarded_written _ w1 (guarded_loadRegions name)) as G2.
    pose proof (guarded_written _ w2
                  (guarded_enrich (Getenv proc electricityMapsAPIKeyEnvVar)
                     token loaded)) as G3.
    rewrite Hlogin in G1. rewrite Hload in G2. rewrite Henrich in G3.
    cbn in G1, G2, G3.
    rewrite !written_app, G1, G2, G3. cbn.
    rewrite written_app, (writeRegions_written _ _ _ _ Hrows). cbn.
    now rewrite app_nil_r.
Qed.

Lemma headerFirst_bind {A B} (m : M host A) (k : A -> M host B) :
  guarded m -> (forall a, headerFirst (k a)) -> headerFirst (bind m k).
Proof.
  intros Hm Hk w. pose proof (guarded_written m w Hm) as Hw. unfold bind.
  destruct (m w) as [[[a | e | msg] w1] t1]; cbn in *; auto.
  specialize (Hk a w1). destruct (k a w1) as [[r w2] t2]. cbn in *.
  now rewrite written_app, Hw.
Qed.

(** X16.  Whatever happens in a run, what it has written is either
    nothing or starts with the header: no row is ever written before the
    header, and nothing is written by a run that ends before the writing
    phase. *)
Theorem any_output_starts_with_the_header (w : World host) :
  written (events (mainWithError host proc w)) = []
  \/ exists rows,
       written (events (mainWithError host proc w)) = header :: rows.
Proof.
  revert w. change (headerFirst (mainWithError host proc)).
  unfold mainWithError.
  destruct (Getenv proc electricityMapsAPIKeyEnvVar =? ""); [now left |].
  destruct (Getenv proc wattTimeUserEnvVar =? ""); [now left |].
  destruct (Getenv proc wattTimePasswordEnvVar =? ""); [now left |].
  apply headerFirst_bind; [apply guarded_getWattTimeAccessToken |].
  intros token.
  apply headerFirst_bind; [apply guarded_lift |]. intros fileName.
  apply headerFirst_bind; [apply guarded_loadRegions |]. intros regions.
  apply headerFirst_bind; [apply guarded_enrich |]. intros regions'.
  intros w. right. unfold bind at 1, Write.
  destruct (stdoutWrite host header w) as [[e |] w1]; cbn; [now eexists |].
  match goal with
  | |- context [bind ?m ?k w1] => destruct (bind m k w1) as [[r w2] t2]
  end.
  cbn. now eexists.
Qed.

(** X17.  With the three variables set, the login done and a file name
    given, an error of [loadRegions] is the result of the run, and
    nothing has been written: the run stops at the first row that fails
    to load. *)
Theorem load_error_is_the_result_of_the_run
    (w w1 w2 : World host) (token fileName : string) (e : error)
    (t1 t2 : list Event) :
  Getenv proc electricityMapsAPIKeyEnvVar <> "" ->
  Getenv proc wattTimeUserEnvVar <> "" ->
  Getenv proc wattTimePasswordEnvVar <> "" ->
  getWattTimeAccessToken host (Getenv proc wattTimeUserEnvVar)
    (Getenv proc wattTimePasswordEnvVar) w = (Ok token, w1, t1) ->
  index (Args proc) 1 = Ok fileName ->
  loadRegions host proc fileName w1 = (Err e, w2, t2) ->
  mainWithError host proc w = (Err e, w2, (t1 ++ t2)%list)
  /\ written (t1 ++ t2) = [].
Proof.
  intros Hk Hu Hp Hlogin Hargs Hload.
  destruct (load_error_aborts_the_run w w1 w2 token fileName e t1 t2
              Hk Hu Hp Hlogin Hargs Hload) as [Hrun Hout].
  split; [exact Hrun | now apply written_no_output].
Qed.

(** X18.  A missing WattTime user or password ends the run before any
    event, with an error that names the missing variable. *)
Theorem missing_wattTime_credentials_are_named (w : World host) :
  Getenv proc electricityMapsAPIKeyEnvVar <> "" ->
  (Getenv proc wattTimeUserEnvVar = "" ->
   mainWithError host proc w
   = (Err (ErrorString "WATT_TIME_USER env var must be set"), w, []))
  /\ (Getenv proc wattTimeUserEnvVar <> "" ->
      Getenv proc wattTimePasswordEnvVar = "" ->
      mainWithError host proc w
      = (Err (ErrorString "WATT_TIME_PASSWORD env var must be set"), w, [])).
Proof.
  intros Hk. split.
  - intros Hu. now apply missing_user_is_named.
  - intros Hu Hp. now apply missing_password_is_named.
Qed.

(** X19.  A row written by the program is never geocoded when it is read
    back, whatever the coordinates were: [%f] prints no empty field, so
    loading the row makes no request and leaves the world as it was. *)
Theorem written_row_is_never_geocoded (r : Region) (w : World host) :
  world (loadRecord host (recordOf r) w) = w
  /\ events (loadRecord host (recordOf r) w) = [].
Proof. apply reload_makes_no_request. Qed.

(** X20.  Loading a row of ten fields panics in one situation only: the
    coordinates are missing, there is no override, the provider is AWS and
    the location has no ['('].  In every other case it returns a region or
    an error. *)
Theorem loadRecord_panics_only_on_aws_location
    (f0 f1 f2 f3 f4 f5 f6 f7 f8 f9 : string) (w : World host)
    (msg : string) :
  result (loadRecord host [f0; f1; f2; f3; f4; f5; f6; f7; f8; f9] w)
  = Panic msg ->
  (f6 = "" \/ f7 = "") /\ f3 = "" /\ f0 = awsCloudProvider
  /\ strings.Contains f2 "(" = false.
Proof.
  assert (Hempty : forall s, nonEmpty s = false -> s = "").
  { intros s H. unfold nonEmpty in H. apply negb_false_iff in H.
    now apply String.eqb_eq. }
  assert (Hcoords :
    f6 = "" \/ f7 = "" ->
    result (loadRecord host [f0; f1; f2; f3; f4; f5; f6; f7; f8; f9] w)
    = Panic msg ->
    f3 = "" /\ f0 = awsCloudProvider /\ strings.Contains f2 "(" = false).
  { intros Hmissing.
    assert (Hcases : f6 = "" \/ (exists c6 s6, f6 = String c6 s6) /\ f7 = "").
    { destruct Hmissing as [-> | ->]; [now left |].
      destruct f6; [now left | right; eauto]. }
    clear Hmissing.
    destruct Hcases as [-> | [(c6 & s6 & ->) ->]].
    all: unfold loadRecord, bind; cbn.
    all: destruct f3 as [| c3 s3]; cbn.
    all: try (destruct (f0 =? awsCloudProvider) eqn:H0; cbn;
              [apply String.eqb_eq in H0;
               destruct (parseAWSLocation f2) as [loc | e | m] eqn:Haws;
               cbn |]).
    all: try match goal with
         | |- context [getGeolocation ?h ?loc ?t ?w0] =>
             pose proof (fun m0 => getGeolocation_no_panic h loc t w0 m0)
               as Hp;
             destruct (getGeolocation h loc t w0) as [[[c | e0 | m0] w1] t1];
             cbn in *; intros H; try discriminate;
             now destruct (Hp m0)
         end.
    all: try discriminate.
    all: intros _; repeat split; auto.
    all: destruct (strings.Contains f2 "(") eqn:C; [| reflexivity].
    all: destruct (parseAWSLocation_Ok_with_paren f2 C) as [loc Hloc];
      congruence. }
  destruct (nonEmpty f6) eqn:N6; [destruct (nonEmpty f7) eqn:N7 |].
  - unfold loadRecord, bind. cbn. rewrite N6. cbn. rewrite N7. cbn.
    destruct (ParseFloat host f6); cbn; [| discriminate].
    destruct (ParseFloat host f7); cbn; discriminate.
  - intros H. pose proof (Hempty _ N7) as E7.
    destruct (Hcoords (or_intror E7) H) as (H3 & H0 & Hc). auto.
  - intros H. pose proof (Hempty _ N6) as E6.
    destruct (Hcoords (or_introl E6) H) as (H3 & H0 & Hc). auto.
Qed.

(** *** The revised statements about the pass and about loading *)



Lemma readRecord_ten (line : Z) (fields : list string) :
  length fields = 10 ->
  csv.readRecord 10 (csv.Fields line fields) = (fields, None, 10%Z).
Proof. intros H. cbn. now rewrite H. Qed.

(** After a header of ten fields, [loadRegions] is the loading loop over
    the lines that follow, started with no region. *)
Lemma loadRegions_after_header
    (fileName : string) (l0 : Z) (hdr : list string) (lines : list csv.Line)
    (w : World host) :
  Open proc fileName = Done (csv.Fields l0 hdr :: lines) ->
  length hdr = 10 ->
  loadRegions host proc fileName w
  = (result (loadLoop host 10 lines [] w),
     world (loadLoop host 10 lines [] w),
     EvOpen fileName :: events (loadLoop host 10 lines [] w)).
Proof.
  intros Hopen Hlen. unfold loadRegions, bind, OpenFile. rewrite Hopen.
  cbn. rewrite Hlen. cbn.
  now destruct (loadLoop host 10 lines [] w) as [[r w1] t1].
Qed.

(** The loop over ten-field lines that all load, followed by more
    lines. *)
Lemma loadLoop_app (before : list csv.Line) :
  Forall tenFields before ->
  forall (rest : list csv.Line) (regions loaded : list Region)
         (w w1 : World host) (t1 : list Event),
    loadLoop host 10 before regions w = (Ok loaded, w1, t1) ->
    loadLoop host 10 (before ++ rest) regions w
    = (result (loadLoop host 10 rest loaded w1),
       world (loadLoop host 10 rest loaded w1),
       (t1 ++ events (loadLoop host 10 rest loaded w1))%list).
Proof.
  induction 1 as [| l before Hl _ IH]; intros rest regions loaded w w1 t1.
  - cbn. intros [= <- <- <-].
    now destruct (loadLoop host 10 rest regions w) as [[r w2] t2].
  - destruct l as [line fields | e]; [| contradiction]. cbn in Hl.
    cbn [app loadLoop]. rewrite (readRecord_ten line fields Hl).
    intros Hrun.
    apply bind_Ok_inv in Hrun as (r & wa & ta & tb & Hload & Hloop & ->).
    rewrite (bind_Ok _ _ _ _ _ _ _ Hload).
    rewrite (IH rest _ _ _ _ _ Hloop). cbn. now rewrite app_assoc.
Qed.

(** C7.  For a row of ten fields whose latitude and longitude fields
    are both non-empty, loading makes no request: it parses the two
    fields and the region it appends to the loaded regions, at the place
    of the row, has exactly the parsed values, so that [loadRegions]
    returns what the loop over the following rows returns from there.  If
    either field does not parse, the parse error is the result of the
    loop body, of the loop, of [loadRegions] and of the run, which has
    written nothing. *)
Theorem stored_coordinates_are_parsed
    (f0 f1 f2 f3 f4 f5 f6 f7 f8 f9 : string) (w : World host) :
  f6 <> "" -> f7 <> "" ->
  let record := [f0; f1; f2; f3; f4; f5; f6; f7; f8; f9] in
  (forall latitude longitude,
      ParseFloat host f6 = Done latitude ->
      ParseFloat host f7 = Done longitude ->
      let region :=
        {| CloudProvider := f0;
           CloudRegion := f1;
           Location := f2;
           LocationOverride := f3;
           LocationSource := f4;
           LocationType := f5;
           Latitude := latitude;
           Longitude := longitude;
           ElectricityMapsZone := f8;
           WattTimeRegion := f9 |} in
      loadRecord host record w = (Ok region, w, [])
      /\ (forall line rest regions,
            loadLoop host 10 (csv.Fields line record :: rest) regions w
            = loadLoop host 10 rest (regions ++ [region]) w)
      /\ (forall fileName l0 hdr before line rest w0 loaded t,
            Open proc fileName
            = Done (csv.Fields l0 hdr
                      :: before ++ csv.Fields line record :: rest) ->
            length hdr = 10 ->
            Forall tenFields before ->
            loadLoop host 10 before [] w0 = (Ok loaded, w, t) ->
            loadRegions host proc fileName w0
            = (result (loadLoop host 10 rest (loaded ++ [region]) w),
               world (loadLoop host 10 rest (loaded ++ [region]) w),
               EvOpen fileName
                 :: t ++ events (loadLoop host 10 rest (loaded ++ [region])
                                   w))))
  /\ (forall e,
        ParseFloat host f6 = Failed e \/
        (exists latitude,
            ParseFloat host f6 = Done latitude /\
            ParseFloat host f7 = Failed e) ->
        loadRecord host record w = (Err e, w, [])
        /\ (forall line rest regions,
              loadLoop host 10 (csv.Fields line record :: rest) regions w
              = (Err e, w, []))
        /\ (forall fileName l0 hdr before line rest w0 loaded t,
              Open proc fileName
              = Done (csv.Fields l0 hdr
                        :: before ++ csv.Fields line record :: rest) ->
              length hdr = 10 ->
              Forall tenFields before ->
              loadLoop host 10 before [] w0 = (Ok loaded, w, t) ->
              loadRegions host proc fileName w0
              = (Err e, w, EvOpen fileName :: t)
              /\ forall wstart token t0,
                   Getenv proc electricityMapsAPIKeyEnvVar <> "" ->
                   Getenv proc wattTimeUserEnvVar <> "" ->
                   Getenv proc wattTimePasswordEnvVar <> "" ->
                   getWattTimeAccessToken host
                     (Getenv proc wattTimeUserEnvVar)
                     (Getenv proc wattTimePasswordEnvVar) wstart
                   = (Ok token, w0, t0) ->
                   index (Args proc) 1 = Ok fileName ->
                   mainWithError host proc wstart
                   = (Err e, w, (t0 ++ EvOpen fileName :: t)%list)
                   /\ written (t0 ++ EvOpen fileName :: t) = [])).
Proof.
  intros H6 H7 record.
  assert (Hne : nonEmpty f6 = true /\ nonEmpty f7 = true).
  { unfold nonEmpty. apply String.eqb_neq in H6, H7. now rewrite H6, H7. }
  destruct Hne as [N6 N7].
  assert (Hten : length record = 10) by reflexivity.
  split.
  - intros la lo P6 P7 region.
    assert (Hrec : loadRecord host record w = (Ok region, w, [])).
    { unfold loadRecord, bind. cbn.
      rewrite N6. cbn. rewrite N7. cbn. rewrite P6. cbn. rewrite P7.
      reflexivity. }
    assert (Hstep : forall line rest regions,
      loadLoop host 10 (csv.Fields line record :: rest) regions w
      = loadLoop host 10 rest (regions ++ [region]) w).
    { intros line rest regions. cbn [loadLoop].
      rewrite (readRecord_ten line record Hten).
      rewrite (bind_Ok _ _ _ _ _ _ _ Hrec).
      now destruct (loadLoop host 10 rest (regions ++ [region]) w)
        as [[r w1] t1]. }
    split; [exact Hrec | split; [exact Hstep |]].
    intros fileName l0 hdr before line rest w0 loaded t Hopen Hhdr Hbefore
      Hloop.
    rewrite (loadRegions_after_header fileName l0 hdr _ w0 Hopen Hhdr).
    rewrite (loadLoop_app before Hbefore _ _ _ _ _ _ Hloop).
    now rewrite Hstep.
  - intros e Hfail.
    assert (Hrec : loadRecord host record w = (Err e, w, [])).
    { unfold loadRecord, bind. cbn. rewrite N6. cbn. rewrite N7. cbn.
      destruct Hfail as [P6 | [la [P6 P7]]].
      - now rewrite P6.
      - rewrite P6. cbn. now rewrite P7. }
    assert (Hstep : forall line rest regions,
      loadLoop host 10 (csv.Fields line record :: rest) regions w
      = (Err e, w, [])).
    { intros line rest regions.
      now apply (loadLoop_record_error 10 _ rest regions record 10). }
    split; [exact Hrec | split; [exact Hstep |]].
    intros fileName l0 hdr before line rest w0 loaded t Hopen Hhdr Hbefore
      Hloop.
    assert (Hload : loadRegions host proc fileName w0
                    = (Err e, w, EvOpen fileName :: t)).
    { rewrite (loadRegions_after_header fileName l0 hdr _ w0 Hopen Hhdr).
      rewrite (loadLoop_app before Hbefore _ _ _ _ _ _ Hloop).
      rewrite Hstep. cbn. now rewrite app_nil_r. }
    split; [exact Hload |].
    intros wstart token t0 Hk Hu Hp Hlogin Hargs.
    destruct (load_error_aborts_the_run wstart w0 w token fileName e t0
                (EvOpen fileName :: t) Hk Hu Hp Hlogin Hargs Hload)
      as [Hrun Hout].
    split; [exact Hrun | now apply written_no_output].
Qed.





End Pipeline.

(** ** The theorems at concrete inputs *)

(** An AWS row whose location has no parenthesis and no override reaches
    [parseAWSLocation] from [loadRegions], and the run panics. *)
Example aws_row_without_parenthesis_panics :
  let file := [ csv.Fields 1 header;
                csv.Fields 2 [ "Amazon Web Services"; "us-east-1"; "Virginia";
                               ""; "manual"; "state"; ""; ""; ""; "" ] ] in
  result (mainWithError (Stub.host Stub.server) (Stub.process file) tt)
  = Panic "index out of range".
Proof. vm_compute. reflexivity. Qed.

(** The failing input of C2: a header, a row of nine fields and a
    well-formed row.  Nothing is loaded, and only the header is written. *)
Example short_row_hides_the_rows_after_it :
  let file := [ csv.Fields 1 header;
                csv.Fields 2 (firstn 9 (recordOf Stub.paris));
                csv.Fields 3 (recordOf Stub.paris) ] in
  loadRegions (Stub.host Stub.server) (Stub.process file) "regions.csv" tt
  = (Ok [], tt, [EvOpen "regions.csv"])
  /\ written (events (mainWithError (Stub.host Stub.server)
                        (Stub.process file) tt))
     = [header].
Proof. vm_compute. split; reflexivity. Qed.

Lemma short_row_stops_the_stub_loader :
  loadLoop (Stub.host Stub.server) 10
    [ csv.Fields 2 (firstn 9 (recordOf Stub.paris));
      csv.Fields 3 (recordOf Stub.paris) ] [] tt
  = (Ok [], tt, []).
Proof.
  apply (wrong_field_count_stops_loading (Stub.host Stub.server)
           10 2 (firstn 9 (recordOf Stub.paris))).
  - reflexivity.
  - vm_compute. discriminate.
Defined.

Lemma paris_is_left_alone :
  existsb isZoneLookup
    (events (enrichRegion (Stub.host Stub.server) "key" "tok" Stub.paris tt))
  = false
  /\ existsb isRegionLookup
       (events (enrichRegion (Stub.host Stub.server) "key" "tok" Stub.paris
                  tt))
     = false
  /\ enrich (Stub.host Stub.server) "key" "tok" [Stub.paris; Stub.paris] tt
     = (Ok [Stub.paris; Stub.paris], tt, [EvSleep 1; EvSleep 1]).
Proof.
  destruct (populated_fields_are_left_alone (Stub.host Stub.server)
              "key" "tok") as (Hzone & Hregion & _ & Hpass).
  split; [| split].
  - apply Hzone. discriminate.
  - apply Hregion. discriminate.
  - apply (Hpass [Stub.paris; Stub.paris] tt).
    repeat constructor; discriminate.
Defined.


Lemma server_error_aborts_the_stub_run :
  let run :=
    mainWithError (Stub.host (Stub.serverStatus 500))
      (Stub.process [csv.Fields 1 header; csv.Fields 2 Stub.virginia]) tt in
  (exists e, result run = Err e) /\ existsb isOutput (events run) = false.
Proof.
  destruct (failed_lookup_aborts_the_run (Stub.host (Stub.serverStatus 500))
              (Stub.process [csv.Fields 1 header; csv.Fields 2 Stub.virginia]))
    as (_ & _ & Hrun).
  apply (Hrun tt). vm_compute. reflexivity.
Defined.

Lemma two_candidates_are_unresolved :
  let candidate := Stub.object [("lat", "37.5"); ("lon", "-78.625")] in
  getGeolocation (Stub.host (Stub.serverPlaces [candidate; candidate]))
    "N. Virginia" "city" tt
  = (Ok (0%float, 0%float), tt,
     [EvHTTP (geolocationRequest "N. Virginia" "city")
        (Response 200 (Done (Stub.array [candidate; candidate])))]).
Proof.
  apply (getGeolocation_unresolved
           (Stub.host (Stub.serverPlaces
              [Stub.object [("lat", "37.5"); ("lon", "-78.625")];
               Stub.object [("lat", "37.5"); ("lon", "-78.625")]]))
           "N. Virginia" "city" _
           [ {| Lat := "37.5"; Lon := "-78.625" |};
             {| Lat := "37.5"; Lon := "-78.625" |} ] tt tt).
  - reflexivity.
  - vm_compute. reflexivity.
  - simpl. lia.
Defined.

Lemma paris_coordinates_are_parsed :
  let h := Stub.host Stub.server in
  let row := [ "Google Cloud"; "europe-west9"; "Paris"; ""; "manual"; "city";
               "48.5"; "2.25"; ""; "" ] in
  let bad := [ "Google Cloud"; "europe-west9"; "Paris"; ""; "manual"; "city";
               "north"; "2.25"; ""; "" ] in
  let region :=
    {| CloudProvider := "Google Cloud";
       CloudRegion := "europe-west9";
       Location := "Paris";
       LocationOverride := "";
       LocationSource := "manual";
       LocationType := "city";
       Latitude := 48.5;
       Longitude := 2.25;
       ElectricityMapsZone := "";
       WattTimeRegion := "" |} in
  let good := [ csv.Fields 1 header; csv.Fields 2 (recordOf Stub.paris);
                csv.Fields 3 row ] in
  let broken := [ csv.Fields 1 header; csv.Fields 2 (recordOf Stub.paris);
                  csv.Fields 3 bad; csv.Fields 4 row ] in
  loadRecord h row tt = (Ok region, tt, [])
  /\ loadRegions h (Stub.process good) "regions.csv" tt
     = (Ok [Stub.paris; region], tt, [EvOpen "regions.csv"])
  /\ loadRegions h (Stub.process broken) "regions.csv" tt
     = (Err Stub.syntaxError, tt, [EvOpen "regions.csv"])
  /\ result (mainWithError h (Stub.process broken) tt)
     = Err Stub.syntaxError
  /\ written (events (mainWithError h (Stub.process broken) tt)) = [].
Proof.
  intros h row bad region good broken.
  assert (Hbefore : Forall tenFields [csv.Fields 2 (recordOf Stub.paris)])
    by (repeat constructor).
  assert (Hloop : loadLoop h 10 [csv.Fields 2 (recordOf Stub.paris)] [] tt
                  = (Ok [Stub.paris], tt, []))
    by (vm_compute; reflexivity).
  destruct (stored_coordinates_are_parsed h (Stub.process good)
              "Google Cloud" "europe-west9" "Paris" "" "manual" "city"
              "48.5" "2.25" "" "" tt) as [Hok _];
    [discriminate | discriminate |].
  destruct (Hok 48.5%float 2.25%float) as (Hrec & _ & Hload);
    [vm_compute; reflexivity | vm_compute; reflexivity |].
  destruct (stored_coordinates_are_parsed h (Stub.process broken)
              "Google Cloud" "europe-west9" "Paris" "" "manual" "city"
              "north" "2.25" "" "" tt) as [_ Hfail];
    [discriminate | discriminate |].
  destruct (Hfail Stub.syntaxError) as (_ & _ & Hbroken);
    [left; vm_compute; reflexivity |].
  destruct (Hbroken "regions.csv" 1%Z header
              [csv.Fields 2 (recordOf Stub.paris)] 3%Z [csv.Fields 4 row]
              tt [Stub.paris] [] eq_refl eq_refl Hbefore Hloop)
    as [Hloaderr Hmain].
  destruct (Hmain tt "tok"
              [EvHTTP (loginRequest "user" "secret")
                 (Response 200 (Done (Stub.object [("token", "tok")])))])
    as [Hrun Hout];
    try discriminate; try (vm_compute; reflexivity).
  split; [exact Hrec |].
  split.
  { exact (Hload "regions.csv" 1%Z header
             [csv.Fields 2 (recordOf Stub.paris)] 3%Z [] tt [Stub.paris] []
             eq_refl eq_refl Hbefore Hloop). }
  split; [exact Hloaderr |].
  split.
  - now rewrite Hrun.
  - rewrite Hrun. exact Hout.
Defined.

Lemma bare_process_error :
  mainWithError (Stub.host Stub.server) Stub.bare tt
  = (Err (ErrorString " env var must be set"), tt, [])
  /\ strings.Contains " env var must be set" electricityMapsAPIKeyEnvVar
     = false.
Proof.
  apply (missing_api_key_is_not_named (Stub.host Stub.server) Stub.bare tt).
  reflexivity.
Defined.

Lemma html_body_is_swallowed :
  getWattTimeAccessToken (Stub.host (Stub.serverBody (Done "<html>")))
    "user" "secret" tt
  = (Ok "", tt,
     [EvHTTP (loginRequest "user" "secret") (Response 200 (Done "<html>"))])
  /\ getWattTimeRegion (Stub.host (Stub.serverBody (Done "<html>")))
       "tok" 0 0 tt
     = (Ok "", tt,
        [EvHTTP (regionRequest "tok" 0 0) (Response 200 (Done "<html>"))]).
Proof.
  destruct (wattTime_swallows_decoding_failures
              (Stub.host (Stub.serverBody (Done "<html>")))
              "user" "secret" "tok" 0 0 (Done "<html>") tt tt)
    as [Hlogin Hregion].
  split.
  - apply Hlogin; [eexists; vm_compute; reflexivity | reflexivity].
  - apply Hregion; [eexists; vm_compute; reflexivity | reflexivity].
Defined.



(** ** The further theorems at concrete inputs *)

Lemma virginia_is_extracted :
  parseAWSLocation ("US East " ++ "(" ++ "N. Virginia" ++ ")")
  = Ok "N. Virginia".
Proof.
  apply (parseAWSLocation_extracts_the_name "US East " "N. Virginia");
    reflexivity.
Defined.

Lemma open_paren_alone_returns :
  exists location, parseAWSLocation "Frankfurt (" = Ok location.
Proof.
  destruct (parseAWSLocation_returns_with_paren "Frankfurt (") as [H _].
  apply H. reflexivity.
Defined.

Lemma stub_zone_is_returned :
  result (getElectricityMapsZone (Stub.host Stub.server) "key" 0 0 tt)
  = Ok "US-VA".
Proof.
  apply (zone_lookup_returns (Stub.host Stub.server) "key" 0 0
           (Response 200 (Done (Stub.object [("zone", "US-VA")]))) tt tt).
  - reflexivity.
  - right. eexists _, _. repeat split; vm_compute; reflexivity.
Defined.

Lemma stub_region_fails_on_500 :
  result (getWattTimeRegion (Stub.host (Stub.serverStatus 500)) "tok" 0 0 tt)
  = Err (unexpectedStatus 500).
Proof.
  apply (region_lookup_fails (Stub.host (Stub.serverStatus 500)) "tok" 0 0
           (Response 500 (Done "")) tt tt).
  - reflexivity.
  - right. exists 500%Z, (Done ""). repeat split; discriminate.
Defined.

Lemma stub_login_fails_on_401 :
  result (getWattTimeAccessToken (Stub.host (Stub.serverLogin 401))
            "user" "secret" tt)
  = Err (unexpectedStatus 401).
Proof.
  apply (login_fails (Stub.host (Stub.serverLogin 401)) "user" "secret"
           (Response 401 (Done "")) tt tt).
  - reflexivity.
  - right. exists 401%Z, (Done ""). repeat split; discriminate.
Defined.

Lemma stub_candidate_is_parsed :
  result (getGeolocation (Stub.host Stub.server) "N. Virginia" "city" tt)
  = Ok (37.5%float, (-78.625)%float).
Proof.
  apply (geolocation_returns (Stub.host Stub.server) "N. Virginia" "city"
           (Response 200
              (Done (Stub.array
                       [Stub.object [("lat", "37.5"); ("lon", "-78.625")]])))
           tt tt).
  - reflexivity.
  - eexists _, _. split; [reflexivity |]. split; [vm_compute; reflexivity |].
    right. eexists. repeat split; vm_compute; reflexivity.
Defined.

Lemma stub_login_401_ends_the_run :
  mainWithError (Stub.host (Stub.serverLogin 401)) (Stub.process []) tt
  = (Err (unexpectedStatus 401), tt,
     [EvHTTP (loginRequest "user" "secret") (Response 401 (Done ""))]).
Proof.
  refine (proj2 (login_failure_ends_the_run
                   (Stub.host (Stub.serverLogin 401)) (Stub.process [])
                   (Response 401 (Done "")) tt tt _ _ _ _)
            401%Z (Done "") eq_refl _);
    solve [discriminate | reflexivity].
Defined.

Lemma stub_without_argument_panics :
  mainWithError (Stub.host Stub.server) Stub.noArguments tt
  = (Panic "index out of range", tt,
     [EvHTTP (loginRequest "user" "secret")
        (Response 200 (Done (Stub.object [("token", "tok")])))]).
Proof.
  apply (missing_argument_panics (Stub.host Stub.server) Stub.noArguments
           tt tt "tok").
  - discriminate.
  - discriminate.
  - discriminate.
  - vm_compute. reflexivity.
  - simpl. lia.
Defined.

Lemma stub_empty_file_is_EOF :
  loadRegions (Stub.host Stub.server) (Stub.process []) "regions.csv" tt
  = (Err EOF, tt, [EvOpen "regions.csv"])
  /\ loadRegions (Stub.host Stub.server) (Stub.process [csv.Fields 1 header])
       "regions.csv" tt
     = (Ok [], tt, [EvOpen "regions.csv"])
  /\ loadRegions (Stub.host Stub.server) (Stub.process []) "other.csv" tt
     = (Err (ErrorString "no such file or directory"), tt,
        [EvOpen "other.csv"]).
Proof.
  destruct (loadRegions_edge_inputs (Stub.host Stub.server) (Stub.process [])
              "regions.csv" tt) as (_ & Hempty & _).
  destruct (loadRegions_edge_inputs (Stub.host Stub.server)
              (Stub.process [csv.Fields 1 header]) "regions.csv" tt)
    as (_ & _ & Hheader).
  destruct (loadRegions_edge_inputs (Stub.host Stub.server) (Stub.process [])
              "other.csv" tt) as (Hmissing & _ & _).
  split; [| split].
  - apply Hempty. reflexivity.
  - apply (Hheader 1%Z header). reflexivity.
  - apply Hmissing. reflexivity.
Defined.

Lemma virginia_is_geocoded_by_name :
  events (loadRecord (Stub.host Stub.server) Stub.virginia tt)
  = events (getGeolocation (Stub.host Stub.server) "N. Virginia" "city" tt).
Proof.
  destruct (missing_coordinates_are_geocoded (Stub.host Stub.server)
              "Amazon Web Services" "us-east-1" "US East (N. Virginia)" ""
              "manual" "city" "" "" "" "" tt (or_introl eq_refl))
    as [H _].
  unfold Stub.virginia.
  rewrite (H "N. Virginia"); [reflexivity |].
  right. right. repeat split; reflexivity.
Defined.

Lemma stub_pass_counts :
  let run := enrich (Stub.host Stub.server) "key" "tok"
               [Stub.nowhere; Stub.paris; Stub.nowhere] tt in
  length (filter isZoneLookup (events run)) = 2
  /\ length (filter isRegionLookup (events run)) = 2
  /\ length (filter isSleep (events run)) = 3.
Proof.
  apply (enrich_counts (Stub.host Stub.server) "key" "tok"
           [Stub.nowhere; Stub.paris; Stub.nowhere] tt
           [ setRegion (setZone Stub.nowhere "US-VA") "PJM_DC"; Stub.paris;
             setRegion (setZone Stub.nowhere "US-VA") "PJM_DC" ]).
  vm_compute. reflexivity.
Defined.

Lemma paris_row_keeps_its_text :
  10 <= length (recordOf Stub.paris)
  /\ textFieldsOf (recordOf Stub.paris) Stub.paris.
Proof.
  apply (loaded_record_keeps_its_text (Stub.host Stub.server)
           (recordOf Stub.paris) Stub.paris tt).
  vm_compute. reflexivity.
Defined.

Lemma stub_rows_are_loaded_in_order :
  exists added,
    [Stub.paris; Stub.paris] = ([] ++ added)%list
    /\ Forall2 loadedFrom
         (firstn (length added)
            [ csv.Fields 2 (recordOf Stub.paris);
              csv.Fields 3 (recordOf Stub.paris) ])
         added.
Proof.
  apply (loadLoop_keeps_the_order (Stub.host Stub.server)
           [ csv.Fields 2 (recordOf Stub.paris);
             csv.Fields 3 (recordOf Stub.paris) ]
           eq_refl 10 [] [Stub.paris; Stub.paris] tt).
  vm_compute. reflexivity.
Defined.

Lemma stub_output_loads_without_requests :
  exists regions',
    loadRegions (Stub.host Stub.server)
      (Stub.process (asInput (header :: map recordOf [Stub.paris])))
      "regions.csv" tt
    = (Ok regions', tt, [EvOpen "regions.csv"])
    /\ Forall2 (fun r r' => textFieldsOf (recordOf r) r')
         [Stub.paris] regions'.
Proof.
  apply (written_file_loads_without_requests (Stub.host Stub.server)
           (Stub.process (asInput (header :: map recordOf [Stub.paris])))
           [Stub.paris] "regions.csv" tt).
  - reflexivity.
  - repeat constructor. eexists _, _. split; vm_compute; reflexivity.
Defined.

Lemma stub_run_writes_header_and_rows :
  let run :=
    mainWithError (Stub.host Stub.server)
      (Stub.process [csv.Fields 1 header; csv.Fields 2 Stub.virginia]) tt in
  exists regions, written (events run) = header :: map recordOf regions.
Proof.
  intros run.
  destruct (successful_run_output (Stub.host Stub.server)
              (Stub.process [csv.Fields 1 header; csv.Fields 2 Stub.virginia])
              tt tt (events run))
    as (fileName & token & w1 & loaded & regions & _ & _ & _ & _ & _ & H).
  - vm_compute. reflexivity.
  - now exists regions.
Defined.

Lemma stub_bad_latitude_ends_the_run :
  let file := [ csv.Fields 1 header;
                csv.Fields 2 [ "Google Cloud"; "europe-west9"; "Paris"; "";
                               "manual"; "city"; "north"; "2.25"; ""; "" ] ] in
  mainWithError (Stub.host Stub.server) (Stub.process file) tt
  = (Err Stub.syntaxError, tt,
     [ EvHTTP (loginRequest "user" "secret")
         (Response 200 (Done (Stub.object [("token", "tok")])));
       EvOpen "regions.csv" ]).
Proof.
  intros file.
  apply (load_error_is_the_result_of_the_run (Stub.host Stub.server)
           (Stub.process file) tt tt tt "tok" "regions.csv"
           Stub.syntaxError
           [EvHTTP (loginRequest "user" "secret")
              (Response 200 (Done (Stub.object [("token", "tok")])))]
           [EvOpen "regions.csv"]);
    solve [discriminate | vm_compute; reflexivity].
Defined.

Lemma stub_missing_user_is_named :
  mainWithError (Stub.host Stub.server) Stub.keyOnly tt
  = (Err (ErrorString "WATT_TIME_USER env var must be set"), tt, []).
Proof.
  destruct (missing_wattTime_credentials_are_named (Stub.host Stub.server)
              Stub.keyOnly tt) as [H _].
  - discriminate.
  - apply H. reflexivity.
Defined.

Lemma aws_row_panic_has_no_paren :
  ("" = "" \/ "" = "") /\ "" = ""
  /\ "Amazon Web Services" = awsCloudProvider
  /\ strings.Contains "Virginia" "(" = false.
Proof.
  apply (loadRecord_panics_only_on_aws_location (Stub.host Stub.server)
           "Amazon Web Services" "us-east-1" "Virginia" "" "manual" "state"
           "" "" "" "" tt "index out of range").
  vm_compute. reflexivity.
Defined.
